(** * selfservices: a shallow embedding of the wrapper layer

    The development follows the TypeScript sources of the repository:

    - [Users]       features/users/store (state, actions, reducer, effects)
    - [Api]         core/api (BaseApiService.buildUrl)
    - [Keycloak]    core/auth/keycloak.service.ts
    - [RoleGuard]   core/auth/role.guard.ts
    - [Toast]       core/notifications/services/toast.service.ts
    - [ErrorLog]    the error logging service (ErrorLoggingService)

Definitions come first (one module per source file), the theorems
about them follow. *)

From Stdlib Require Import ZArith Ascii String List Lia.
From Corelib Require Import PrimFloat.
From stdpp Require Import base option list strings gmap fin_maps.

Set Default Proof Using "Type".

(** ** The fragment of JavaScript the sources rely on *)

Module JS.

(** A synchronous call either returns or throws (the payload is the
    message of the [Error]). *)
Inductive Completion (A : Type) : Type :=
| Normal (a : A)
| Throw (e : string).
Arguments Normal {A} a.
Arguments Throw {A} e.

(** A settled promise. *)
Inductive Promise (A : Type) : Type :=
| Resolved (a : A)
| Rejected (e : string).
Arguments Resolved {A} a.
Arguments Rejected {A} e.

(** [s.startsWith(p)] *)
Definition startsWith (s p : string) : bool := String.prefix p s.

(** [x || d] on an optional string: [undefined] and the empty string are
    falsy. *)
Definition or_default (x : option string) (d : string) : string :=
  match x with
  | Some EmptyString | None => d
  | Some s => s
  end.

(** [arr.pop()]: the removed last element (or [undefined]) and the array
    that is left. *)
Definition pop {A : Type} (l : list A) : option A * list A :=
  (last l, removelast l).

(** [arr.shift()]: drops the first element. *)
Definition shift {A : Type} (l : list A) : option A * list A :=
  (head l, tail l).

End JS.
Export JS.

(** ** features/users/store *)

Module Users.

(** [users.state.ts] *)
Record User : Type := mkUser {
  id : string;
  name : string;
  email : string;
}.

Record UsersState : Type := mkUsersState {
  users : list User;
  selectedUserId : option string;
  isLoading : bool;
  error : option string;
}.

Definition initialUsersState : UsersState :=
  {| users := []; selectedUserId := None; isLoading := false; error := None |}.

(** [users.actions.ts]: the action group, one constructor per event. *)
Inductive UsersAction : Type :=
| loadUsers
| loadUsersSuccess (users : list User)
| loadUsersFailure (error : string)
| selectUser (userId : string)
| clearSelection
| addUser (user : User)
| addUserSuccess (user : User)
| addUserFailure (error : string)
| updateUser (user : User)
| updateUserSuccess (user : User)
| updateUserFailure (error : string)
| deleteUser (userId : string)
| deleteUserSuccess (userId : string)
| deleteUserFailure (error : string).

(** [users.reducer.ts]: every [on(...)] clause spreads [...state] and
    overrides the listed fields. *)
Definition usersReducer (state : UsersState) (action : UsersAction) : UsersState :=
  match action with
  | loadUsers =>
      {| users := users state; selectedUserId := selectedUserId state;
         isLoading := true; error := None |}
  | loadUsersSuccess us =>
      {| users := us; selectedUserId := selectedUserId state;
         isLoading := false; error := None |}
  | loadUsersFailure e =>
      {| users := users state; selectedUserId := selectedUserId state;
         isLoading := false; error := Some e |}
  | selectUser uid =>
      {| users := users state; selectedUserId := Some uid;
         isLoading := isLoading state; error := error state |}
  | clearSelection =>
      {| users := users state; selectedUserId := None;
         isLoading := isLoading state; error := error state |}
  | addUser _ =>
      {| users := users state; selectedUserId := selectedUserId state;
         isLoading := true; error := None |}
  | addUserSuccess u =>
      {| users := users state ++ [u]; selectedUserId := selectedUserId state;
         isLoading := false; error := error state |}
  | addUserFailure e =>
      {| users := users state; selectedUserId := selectedUserId state;
         isLoading := false; error := Some e |}
  | updateUser _ =>
      {| users := users state; selectedUserId := selectedUserId state;
         isLoading := true; error := None |}
  | updateUserSuccess u =>
      {| users := map (fun u' => if String.eqb (id u') (id u) then u else u')
                      (users state);
         selectedUserId := selectedUserId state;
         isLoading := false; error := error state |}
  | updateUserFailure e =>
      {| users := users state; selectedUserId := selectedUserId state;
         isLoading := false; error := Some e |}
  | deleteUser _ =>
      {| users := users state; selectedUserId := selectedUserId state;
         isLoading := true; error := None |}
  | deleteUserSuccess uid =>
      {| users := List.filter (fun u => negb (String.eqb (id u) uid)) (users state);
         selectedUserId :=
           match selectedUserId state with
           | Some sel => if String.eqb sel uid then None else Some sel
           | None => None
           end;
         isLoading := false; error := error state |}
  | deleteUserFailure e =>
      {| users := users state; selectedUserId := selectedUserId state;
         isLoading := false; error := Some e |}
  end.

(** [users.effects.ts], [deleteUser$]: the effect reacts to [deleteUser]
    only, runs the delete call and maps its outcome to one action.  The
    call is a parameter: the source has [of(userId)] in its place, with a
    note to replace it by the service call. *)
Definition deleteUser_effect (call : string -> Promise unit)
    (action : UsersAction) : option UsersAction :=
  match action with
  | deleteUser uid =>
      match call uid with
      | Resolved _ => Some (deleteUserSuccess uid)
      | Rejected msg => Some (deleteUserFailure msg)
      end
  | _ => None
  end.

(** The stand-in the source ships: [of(userId)] always emits. *)
Definition stub_delete_call (_ : string) : Promise unit := Resolved tt.

(** The store: the reducer runs on the dispatched action first, the
    effect's resulting action is dispatched after it. *)
Definition dispatch (call : string -> Promise unit)
    (state : UsersState) (action : UsersAction) : UsersState :=
  let state1 := usersReducer state action in
  match deleteUser_effect call action with
  | Some follow => usersReducer state1 follow
  | None => state1
  end.

Definition hasUser (uid : string) (state : UsersState) : bool :=
  existsb (fun u => String.eqb (id u) uid) (users state).

(** [users.selectors.ts], as functions of the feature state. *)
Definition selectAllUsers (state : UsersState) : list User := users state.

Definition selectUsersLoading (state : UsersState) : bool := isLoading state.

Definition selectUsersError (state : UsersState) : option string := error state.

Definition selectSelectedUserId (state : UsersState) : option string :=
  selectedUserId state.

(** [users.find((user) => user.id === selectedId) || null]: with a null
    [selectedId] no user matches. *)
Definition selectSelectedUser (state : UsersState) : option User :=
  match selectSelectedUserId state with
  | Some sel => List.find (fun u => String.eqb (id u) sel) (selectAllUsers state)
  | None => None
  end.

Definition selectUsersCount (state : UsersState) : nat :=
  length (selectAllUsers state).

Definition selectUserById (userId : string) (state : UsersState) : option User :=
  List.find (fun u => String.eqb (id u) userId) (selectAllUsers state).

(** The calls the effects wait for.  The source has [of(...)] in their
    place, each with a note to replace it by the service call. *)
Record UsersApi : Type := mkUsersApi {
  api_getUsers : Promise (list User);
  api_addUser : User -> Promise User;
  api_updateUser : User -> Promise User;
  api_deleteUser : string -> Promise unit;
}.

(** [loadUsers$], [addUser$], [updateUser$]: as [deleteUser$], one action
    type in, one success or failure action out. *)
Definition loadUsers_effect (api : UsersApi) (action : UsersAction)
    : option UsersAction :=
  match action with
  | loadUsers =>
      match api_getUsers api with
      | Resolved us => Some (loadUsersSuccess us)
      | Rejected msg => Some (loadUsersFailure msg)
      end
  | _ => None
  end.

Definition addUser_effect (api : UsersApi) (action : UsersAction)
    : option UsersAction :=
  match action with
  | addUser u =>
      match api_addUser api u with
      | Resolved newUser => Some (addUserSuccess newUser)
      | Rejected msg => Some (addUserFailure msg)
      end
  | _ => None
  end.

Definition updateUser_effect (api : UsersApi) (action : UsersAction)
    : option UsersAction :=
  match action with
  | updateUser u =>
      match api_updateUser api u with
      | Resolved updatedUser => Some (updateUserSuccess updatedUser)
      | Rejected msg => Some (updateUserFailure msg)
      end
  | _ => None
  end.

(** The four effects of [UsersEffects], in the order of the class. *)
Definition usersEffects (api : UsersApi) (action : UsersAction)
    : list UsersAction :=
  omap (fun effect => effect action)
    [loadUsers_effect api; addUser_effect api; updateUser_effect api;
     deleteUser_effect (api_deleteUser api)].

(** The calls the source ships: every one emits at once. *)
Definition stub_api : UsersApi :=
  {| api_getUsers :=
       Resolved [ {| id := "1"; name := "John Doe"; email := "john@example.com" |};
                  {| id := "2"; name := "Jane Smith"; email := "jane@example.com" |} ];
     api_addUser := fun u => Resolved u;
     api_updateUser := fun u => Resolved u;
     api_deleteUser := stub_delete_call |}.

(** A dispatched action goes through the reducer, then through the
    effects, whose answers go through the reducer in turn. *)
Definition dispatchAll (api : UsersApi) (state : UsersState)
    (action : UsersAction) : UsersState :=
  fold_left usersReducer (usersEffects api action) (usersReducer state action).

(** The actions that start a request. *)
Definition startsRequest (action : UsersAction) : bool :=
  match action with
  | loadUsers | addUser _ | updateUser _ | deleteUser _ => true
  | _ => false
  end.

(** The message a failure action carries. *)
Definition failureMessage (action : UsersAction) : option string :=
  match action with
  | loadUsersFailure msg | addUserFailure msg
  | updateUserFailure msg | deleteUserFailure msg => Some msg
  | _ => None
  end.

End Users.

(** ** core/api: BaseApiService *)

Module Api.

Section BaseApiService.

(** [environment.apiUrl], fixed when the service is built. *)
Variable baseUrl : string.

(** The endpoint is "already a full URL". *)
Definition isFullUrl (endpoint : string) : bool :=
  startsWith endpoint "http://" || startsWith endpoint "https://".

(** [normalizedEndpoint] of [buildUrl]. *)
Definition normalizedEndpoint (endpoint : string) : string :=
  if startsWith endpoint "/" then endpoint else String "/" endpoint.

Definition buildUrl (endpoint : string) : string :=
  if isFullUrl endpoint then endpoint
  else (baseUrl ++ normalizedEndpoint endpoint)%string.

End BaseApiService.

(** Number of slashes an endpoint starts with. *)
Fixpoint leadingSlashes (s : string) : nat :=
  match s with
  | String "/" rest => S (leadingSlashes rest)
  | _ => 0
  end.

End Api.

(** ** core/auth/keycloak.service.ts *)

Module Keycloak.

(** Everything the service does to the outside world, in call order. *)
Inductive Effect : Type :=
| ProviderInit (silentCheckSsoRedirectUri : string)
| ProviderLogin (redirectUri : string)
| ProviderLogout (redirectUri : string)
| ProviderUpdateToken (minValidity : Z)
| ProviderLoadUserProfile
| SetInterval (ms : Z)
| ConsoleError (msg : string)
| ConsoleWarn (msg : string)
| ConsoleInfo (msg : string)
| ConsoleDebug (msg : string)
| RouterNavigate (commands : list string).

(** [models/keycloak-user.model.ts] *)
Record KeycloakTokenParsed : Type := mkTokenParsed {
  exp : option Z;
  sub : option string;
  realm_access : option (list string);
  resource_access : option (list (string * list string));
}.

Record KeycloakUser : Type := mkKeycloakUser {
  user_sub : string;
  user_email : option string;
  user_email_verified : option bool;
  user_name : string;
  user_given_name : option string;
  user_family_name : option string;
  user_preferred_username : option string;
  user_realm_access : option (list string);
  user_resource_access : option (list (string * list string));
}.

(** The profile object the provider hands back. *)
Record KeycloakProfile : Type := mkProfile {
  profile_id : option string;
  profile_email : option string;
  profile_emailVerified : option bool;
  profile_firstName : option string;
  profile_lastName : option string;
  profile_username : option string;
}.

(** The [keycloak-js] object held in [keycloakInstance].  The first four
    fields are the properties the service reads; the [on_*] fields are
    the answers of the identity provider to the calls the service makes,
    so that a failing provider is an ordinary value of this type. *)
Record Instance : Type := mkInstance {
  authenticated : option bool;
  token : option string;
  refreshToken : option string;
  tokenParsed : option KeycloakTokenParsed;
  on_init : Promise bool;
  on_login : Promise unit;
  on_logout : Promise unit;
  on_updateToken : Z -> Promise bool;
  on_loadUserProfile : Promise KeycloakProfile;
}.

(** Modelled from the spec: [hasRealmRole] belongs to the [keycloak-js]
    dependency, which is not part of the repository.  Spec 4.2: role
    checks are synchronous set-membership tests against the realm-role
    list embedded in the current parsed token claims. *)
Definition hasRealmRole (kc : Instance) (role : string) : bool :=
  match tokenParsed kc with
  | Some tp =>
      match realm_access tp with
      | Some rs => bool_decide (role ∈ rs)
      | None => false
      end
  | None => false
  end.

(** The service object plus the log of its effects. *)
Record State : Type := mkState {
  keycloakInstance : option Instance;
  isAuthenticatedSubject : bool;
  userSubject : option KeycloakUser;
  effects : list Effect;
}.

Definition initialState : State :=
  {| keycloakInstance := None; isAuthenticatedSubject := false;
     userSubject := None; effects := [] |}.

Definition emit (e : Effect) (s : State) : State :=
  {| keycloakInstance := keycloakInstance s;
     isAuthenticatedSubject := isAuthenticatedSubject s;
     userSubject := userSubject s;
     effects := effects s ++ [e] |}.

Definition set_instance (kc : Instance) (s : State) : State :=
  {| keycloakInstance := Some kc;
     isAuthenticatedSubject := isAuthenticatedSubject s;
     userSubject := userSubject s;
     effects := effects s |}.

Definition next_isAuthenticated (b : bool) (s : State) : State :=
  {| keycloakInstance := keycloakInstance s;
     isAuthenticatedSubject := b;
     userSubject := userSubject s;
     effects := effects s |}.

Definition next_user (u : option KeycloakUser) (s : State) : State :=
  {| keycloakInstance := keycloakInstance s;
     isAuthenticatedSubject := isAuthenticatedSubject s;
     userSubject := u;
     effects := effects s |}.

(** [String.prototype.trim] strips the white space and the line
    terminators of ECMAScript from both ends.  A string is read here as
    its UTF-8 bytes, so one such character is one, two or three bytes:
    - U+0009 to U+000D and U+0020: the byte itself;
    - U+00A0: C2 A0;
    - U+1680: E1 9A 80;
    - U+2000 to U+200A, U+2028, U+2029, U+202F: E2 80 followed by 80 to
      8A, A8, A9, AF;
    - U+205F: E2 81 9F;
    - U+3000: E3 80 80;
    - U+FEFF: EF BB BF. *)
Definition isWhiteSpace (s : string) : bool :=
  match map nat_of_ascii (list_ascii_of_string s) with
  | [a] => (a =? 32)%nat || ((9 <=? a)%nat && (a <=? 13)%nat)
  | [a; b] => (a =? 194)%nat && (b =? 160)%nat
  | [a; b; c] =>
      ((a =? 225)%nat && (b =? 154)%nat && (c =? 128)%nat) ||
      ((a =? 226)%nat && (b =? 128)%nat &&
         (((128 <=? c)%nat && (c <=? 138)%nat) ||
          (c =? 168)%nat || (c =? 169)%nat || (c =? 175)%nat)) ||
      ((a =? 226)%nat && (b =? 129)%nat && (c =? 159)%nat) ||
      ((a =? 227)%nat && (b =? 128)%nat && (c =? 128)%nat) ||
      ((a =? 239)%nat && (b =? 187)%nat && (c =? 191)%nat)
  | _ => false
  end.

Fixpoint trimStart (s : string) : string :=
  match s with
  | EmptyString => EmptyString
  | String a rest1 =>
      if isWhiteSpace (String a EmptyString) then trimStart rest1 else
      match rest1 with
      | EmptyString => s
      | String b rest2 =>
          if isWhiteSpace (String a (String b EmptyString)) then trimStart rest2 else
          match rest2 with
          | EmptyString => s
          | String c rest3 =>
              if isWhiteSpace (String a (String b (String c EmptyString)))
              then trimStart rest3 else s
          end
      end
  end.

(** From the right: what is kept of the tail has no white space at its
    end, so with one more byte in front it ends in white space only if it
    is one white space character as a whole. *)
Fixpoint trimEnd (s : string) : string :=
  match s with
  | EmptyString => EmptyString
  | String a rest =>
      let kept := String a (trimEnd rest) in
      if isWhiteSpace kept then EmptyString else kept
  end.

Definition trim (s : string) : string := trimEnd (trimStart s).

Section Service.

(** [window.location.origin] *)
Variable origin : string.

Definition isLoggedIn (s : State) : bool :=
  match keycloakInstance s with
  | Some kc => default false (authenticated kc)
  | None => false
  end.

Definition getToken (s : State) : option string :=
  kc ← keycloakInstance s; token kc.

Definition getTokenParsed (s : State) : option KeycloakTokenParsed :=
  kc ← keycloakInstance s; tokenParsed kc.

Definition login (redirectUri : option string) (s : State)
    : State * Completion (Promise unit) :=
  match keycloakInstance s with
  | None => (s, Throw "Keycloak not initialized")
  | Some kc =>
      (emit (ProviderLogin (or_default redirectUri origin)) s,
       Normal (on_login kc))
  end.

Definition logout (redirectUri : option string) (s : State)
    : State * Completion (Promise unit) :=
  match keycloakInstance s with
  | None => (s, Throw "Keycloak not initialized")
  | Some kc =>
      let s1 := next_user None (next_isAuthenticated false s) in
      (emit (ProviderLogout (or_default redirectUri origin)) s1,
       Normal (on_logout kc))
  end.

(** An [async] method: a throw inside the body rejects its promise. *)
Definition updateToken (minValidity : Z) (s : State) : State * Promise bool :=
  match keycloakInstance s with
  | None => (s, Resolved false)
  | Some kc =>
      let s1 := emit (ProviderUpdateToken minValidity) s in
      match on_updateToken kc minValidity with
      | Resolved refreshed =>
          ((if refreshed then emit (ConsoleDebug "Token refreshed") s1 else s1),
           Resolved true)
      | Rejected _ =>
          let s2 := emit (ConsoleError "Failed to refresh token") s1 in
          match logout None s2 with
          | (s3, Normal _) => (s3, Resolved false)
          | (s3, Throw e) => (s3, Rejected e)
          end
      end
  end.

Definition hasRole (role : string) (s : State) : bool :=
  match keycloakInstance s with
  | None => false
  | Some kc => hasRealmRole kc role
  end.

Definition hasAnyRole (roles : list string) (s : State) : bool :=
  existsb (fun role => hasRole role s) roles.

Definition hasAllRoles (roles : list string) (s : State) : bool :=
  forallb (fun role => hasRole role s) roles.

Definition getUserRoles (s : State) : list string :=
  match getTokenParsed s with
  | None => []
  | Some tp => default [] (realm_access tp)
  end.

Definition getUser (s : State) : option KeycloakUser := userSubject s.

(** [loadUserProfile()] is an [async] method.  Its body up to the
    [await]: without an instance nothing is asked, otherwise the provider
    is asked for the profile and the method waits for the answer. *)
Definition loadUserProfile_request (s : State)
    : State * option (Promise KeycloakProfile) :=
  match keycloakInstance s with
  | None => (s, None)
  | Some kc => (emit ProviderLoadUserProfile s, Some (on_loadUserProfile kc))
  end.

(** Its body from the [await] on, run when the provider has answered, on
    the state of that moment. *)
Definition loadUserProfile_settle (answer : Promise KeycloakProfile) (s : State)
    : State :=
  match answer with
  | Resolved profile =>
      let tp := getTokenParsed s in
      let user :=
        {| user_sub := or_default (profile_id profile) "";
           user_email := profile_email profile;
           user_email_verified := profile_emailVerified profile;
           user_name :=
             trim (or_default (profile_firstName profile) "" ++ " " ++
                   or_default (profile_lastName profile) "")%string;
           user_given_name := profile_firstName profile;
           user_family_name := profile_lastName profile;
           user_preferred_username := profile_username profile;
           user_realm_access := tp' ← tp; realm_access tp';
           user_resource_access := tp' ← tp; resource_access tp' |} in
      next_user (Some user) s
  | Rejected _ => emit (ConsoleError "Failed to load user profile") s
  end.


(** Registers the 60 s interval; the three provider callbacks it
    installs are [onTokenExpired], [onAuthError] and [onAuthLogout]
    below, the interval's callback is [refreshTick]. *)
Definition setupTokenRefresh (s : State) : State :=
  match keycloakInstance s with
  | None => s
  | Some _ => emit (SetInterval 60000) s
  end.

Definition refreshTick (s : State) : State :=
  match updateToken 70 s with
  | (s1, Resolved _) => s1
  | (s1, Rejected _) => emit (ConsoleError "Token refresh failed") s1
  end.

Definition onTokenExpired (s : State) : State :=
  let s0 := emit (ConsoleWarn "Token expired, refreshing...") s in
  match updateToken 30 s0 with
  | (s1, Resolved _) => s1
  | (s1, Rejected _) =>
      fst (logout None (emit (ConsoleError "Failed to refresh expired token") s1))
  end.

Definition onAuthError (s : State) : State :=
  fst (logout None (emit (ConsoleError "Authentication error occurred") s)).

Definition onAuthLogout (s : State) : State :=
  next_user None (next_isAuthenticated false (emit (ConsoleInfo "User logged out") s)).

Definition clearAuth (s : State) : State :=
  next_user None (next_isAuthenticated false s).

(** [init()].  [construct] is the outcome of [new Keycloak(config)].
    The call [this.loadUserProfile()] is not awaited: [init] runs that
    method up to its [await], registers the token refresh and returns;
    the profile's answer is dealt with later, by
    [loadUserProfile_settle]. *)
Definition init (construct : Completion Instance) (s : State)
    : State * Promise bool :=
  match construct with
  | Throw _ =>
      (emit (ConsoleError "Failed to initialize Keycloak") s, Resolved false)
  | Normal kc =>
      let s1 :=
        emit (ProviderInit (origin ++ "/assets/silent-check-sso.html")%string)
             (set_instance kc s) in
      match on_init kc with
      | Rejected _ =>
          (emit (ConsoleError "Failed to initialize Keycloak") s1, Resolved false)
      | Resolved isAuth =>
          let s2 := next_isAuthenticated isAuth s1 in
          ((if isAuth then setupTokenRefresh (fst (loadUserProfile_request s2))
            else s2),
           Resolved isAuth)
      end
  end.

End Service.

End Keycloak.

(** ** core/auth/role.guard.ts *)

Module RoleGuard.
Import Keycloak.

(** A value found in the untyped [route.data] bag. *)
Inductive JsValue : Type :=
| JsUndefined
| JsBool (b : bool)
| JsString (s : string)
| JsNumber (n : Z).

(** [v === true] *)
Definition strictly_true (v : JsValue) : bool :=
  match v with
  | JsBool true => true
  | _ => false
  end.

(** The two entries of [route.data] the guard reads. *)
Record RouteData : Type := mkRouteData {
  roles : option (list string);
  requireAll : JsValue;
}.

Section Guard.

Variable origin : string.

Definition roleGuard (data : RouteData) (url : string) (s : State)
    : State * Completion bool :=
  if negb (isLoggedIn s) then
    match login origin (Some (origin ++ url)%string) s with
    | (s1, Normal _) => (s1, Normal false)
    | (s1, Throw e) => (s1, Throw e)
    end
  else
    match roles data with
    | None | Some [] =>
        (emit (ConsoleWarn "RoleGuard: No roles specified in route data") s,
         Normal true)
    | Some requiredRoles =>
        let all := strictly_true (requireAll data) in
        let hasAccess :=
          if all then hasAllRoles requiredRoles s
          else hasAnyRole requiredRoles s in
        if negb hasAccess then
          let s1 :=
            emit (ConsoleWarn "RoleGuard: User does not have required roles") s in
          (emit (RouterNavigate ["/unauthorized"%string]) s1, Normal false)
        else (s, Normal true)
    end.

End Guard.

End RoleGuard.

(** ** core/notifications: models and ToastService *)

Module Toast.

(** [notification.model.ts].  A duration is a JavaScript [number], that
    is an IEEE 754 double: it is compared with [0] and divided by [2] in
    that arithmetic.  [maxToasts] is only compared with an array length and
    is an integer. *)
Inductive NotificationType : Type :=
| TSuccess | TError | TWarning | TInfo.

Inductive NotificationPosition : Type :=
| top_right | top_left | top_center
| bottom_right | bottom_left | bottom_center.

(** The callback is kept as an opaque token: it is stored, never run by
    the service. *)
Record NotificationAction : Type := mkAction {
  label : string;
  callback : nat;
}.

Record Notification : Type := mkNotification {
  id : string;
  type : NotificationType;
  title : option string;
  message : string;
  duration : float;
  dismissible : bool;
  timestamp : Z;
  action : option NotificationAction;
}.

(** A key of an options object: absent, present with the value
    [undefined], or present with a value.  Reading the key ([o.key],
    [o?.key]) gives [undefined] in the two first cases; spreading the
    object ([{...o}]) copies the key in the two last ones. *)
Inductive Optional (A : Type) : Type :=
| Missing
| Undefined
| Given (a : A).
Arguments Missing {A}.
Arguments Undefined {A}.
Arguments Given {A} a.

Definition read {A : Type} (o : Optional A) : option A :=
  match o with
  | Given a => Some a
  | Missing | Undefined => None
  end.

(** Only [duration] is ever spread over another value ([error]); for the
    other keys, which are only read, absent and [undefined] are one case. *)
Record NotificationOptions : Type := mkOptions {
  opt_title : option string;
  opt_duration : Optional float;
  opt_dismissible : option bool;
  opt_action : option NotificationAction;
}.

Record ToastConfig : Type := mkConfig {
  position : NotificationPosition;
  maxToasts : Z;
  defaultDuration : float;
  pauseOnHover : bool;
}.

Definition DEFAULT_TOAST_CONFIG : ToastConfig :=
  {| position := top_right; maxToasts := 5;
     defaultDuration := 5000%float; pauseOnHover := true |}.

Definition TOAST_DURATIONS_short : float := 3000%float.
Definition TOAST_DURATIONS_medium : float := 5000%float.
Definition TOAST_DURATIONS_long : float := 8000%float.
Definition TOAST_DURATIONS_persistent : float := 0%float.

(** A pending host timer.  Every timer the service creates has the
    callback [() => this.dismiss(id)], so the id stands for the callback. *)
Record Timer : Type := mkTimer {
  timer_id : string;
  delay : float;
}.

(** Calls made to the host's timer functions, in order. *)
Inductive TimerCall : Type :=
| CallSetTimeout (handle : positive) (target : string) (ms : float)
| CallClearTimeout (handle : positive).

(** The service's three fields, and the host's timers.  A timer handle is
    a positive number, hence truthy: the test [if (timeout)] of
    [clearTimeout] only tells a present entry from an absent one. *)
Record State : Type := mkState {
  _notifications : list Notification;
  _config : ToastConfig;
  timeoutMap : gmap string positive;
  pendingTimers : gmap positive Timer;
  nextHandle : positive;
  timerCalls : list TimerCall;
}.

Definition initialState : State :=
  {| _notifications := []; _config := DEFAULT_TOAST_CONFIG; timeoutMap := ∅;
     pendingTimers := ∅; nextHandle := 1%positive; timerCalls := [] |}.

Definition set_notifications (l : list Notification) (s : State) : State :=
  {| _notifications := l; _config := _config s; timeoutMap := timeoutMap s;
     pendingTimers := pendingTimers s; nextHandle := nextHandle s;
     timerCalls := timerCalls s |}.

Definition set_config (c : ToastConfig) (s : State) : State :=
  {| _notifications := _notifications s; _config := c; timeoutMap := timeoutMap s;
     pendingTimers := pendingTimers s; nextHandle := nextHandle s;
     timerCalls := timerCalls s |}.

Definition set_timeoutMap (m : gmap string positive) (s : State) : State :=
  {| _notifications := _notifications s; _config := _config s; timeoutMap := m;
     pendingTimers := pendingTimers s; nextHandle := nextHandle s;
     timerCalls := timerCalls s |}.

(** The host's [setTimeout]: a fresh handle for a new pending timer. *)
Definition host_setTimeout (target : string) (ms : float) (s : State)
    : State * positive :=
  let h := nextHandle s in
  ({| _notifications := _notifications s; _config := _config s;
      timeoutMap := timeoutMap s;
      pendingTimers := <[h := {| timer_id := target; delay := ms |}]> (pendingTimers s);
      nextHandle := Pos.succ h;
      timerCalls := timerCalls s ++ [CallSetTimeout h target ms] |}, h).

(** The host's [clearTimeout]. *)
Definition host_clearTimeout (h : positive) (s : State) : State :=
  {| _notifications := _notifications s; _config := _config s;
     timeoutMap := timeoutMap s;
     pendingTimers := delete h (pendingTimers s);
     nextHandle := nextHandle s;
     timerCalls := timerCalls s ++ [CallClearTimeout h] |}.

(** [private clearTimeout(id)] *)
Definition clearTimeout (i : string) (s : State) : State :=
  match timeoutMap s !! i with
  | Some h =>
      let s1 := host_clearTimeout h s in
      set_timeoutMap (delete i (timeoutMap s1)) s1
  | None => s
  end.

(** [private scheduleRemoval(id, duration)] *)
Definition scheduleRemoval (i : string) (ms : float) (s : State) : State :=
  let '(s1, h) := host_setTimeout i ms s in
  set_timeoutMap (<[i := h]> (timeoutMap s1)) s1.

(** [duration > 0] on doubles: false for [0], [-0], the negative numbers
    and [NaN]. *)
Definition positive_duration (d : float) : bool := (0 <? d)%float.

(** [show(type, message, options)].  The two first arguments are what the
    host supplies during the call: the result of [generateId()] and the
    clock. *)
Definition show (newId : string) (now : Z)
    (ty : NotificationType) (msg : string) (options : option NotificationOptions)
    (s : State) : State * string :=
  let config := _config s in
  let notification :=
    {| id := newId;
       type := ty;
       message := msg;
       title := o ← options; opt_title o;
       duration :=
         default (defaultDuration config) (o ← options; read (opt_duration o));
       dismissible := default true (o ← options; opt_dismissible o);
       timestamp := now;
       action := o ← options; opt_action o |} in
  let updated := notification :: _notifications s in
  let s1 :=
    if (maxToasts config <? Z.of_nat (length updated))%Z then
      match pop updated with
      | (Some removed, rest) => set_notifications rest (clearTimeout (id removed) s)
      | (None, rest) => set_notifications rest s
      end
    else set_notifications updated s in
  let s2 :=
    if positive_duration (duration notification)
    then scheduleRemoval newId (duration notification) s1
    else s1 in
  (s2, newId).

(** [{ duration: TOAST_DURATIONS.long, ...options }]: the spread copies
    every key [options] has, a [duration] key holding [undefined] included,
    over the literal's [duration]; spreading [undefined] copies nothing. *)
Definition with_long_duration (options : option NotificationOptions)
    : NotificationOptions :=
  match options with
  | Some o =>
      {| opt_title := opt_title o;
         opt_duration :=
           match opt_duration o with
           | Missing => Given TOAST_DURATIONS_long
           | Undefined => Undefined
           | Given d => Given d
           end;
         opt_dismissible := opt_dismissible o;
         opt_action := opt_action o |}
  | None =>
      {| opt_title := None; opt_duration := Given TOAST_DURATIONS_long;
         opt_dismissible := None; opt_action := None |}
  end.

Definition success newId now msg options := show newId now TSuccess msg options.
Definition error newId now msg options :=
  show newId now TError msg (Some (with_long_duration options)).
Definition warning newId now msg options := show newId now TWarning msg options.
Definition info newId now msg options := show newId now TInfo msg options.

(** [dismiss(id)] *)
Definition dismiss (i : string) (s : State) : State :=
  let s1 := clearTimeout i s in
  set_notifications
    (List.filter (fun n => negb (String.eqb (id n) i)) (_notifications s1)) s1.

(** [pause(id)] *)
Definition pause (i : string) (s : State) : State := clearTimeout i s.

(** [resume(id)] *)
Definition resume (i : string) (s : State) : State :=
  match List.find (fun n => String.eqb (id n) i) (_notifications s) with
  | Some notification =>
      if positive_duration (duration notification)
      then scheduleRemoval i (duration notification / 2)%float s
      else s
  | None => s
  end.

(** [configure(config)]: the fields present in the partial configuration
    replace the current ones. *)
Definition configure (p : option NotificationPosition) (m : option Z)
    (d : option float) (h : option bool) (s : State) : State :=
  let c := _config s in
  set_config
    {| position := default (position c) p;
       maxToasts := default (maxToasts c) m;
       defaultDuration := default (defaultDuration c) d;
       pauseOnHover := default (pauseOnHover c) h |} s.

(** A pending timer expires: the host forgets it and runs its callback. *)
Definition fire (h : positive) (s : State) : State :=
  match pendingTimers s !! h with
  | Some t =>
      dismiss (timer_id t)
        {| _notifications := _notifications s; _config := _config s;
           timeoutMap := timeoutMap s;
           pendingTimers := delete h (pendingTimers s);
           nextHandle := nextHandle s;
           timerCalls := timerCalls s |}
  | None => s
  end.

(** One [show] call as data, and a run of consecutive calls. *)
Record ShowCall : Type := mkShowCall {
  call_id : string;
  call_now : Z;
  call_type : NotificationType;
  call_message : string;
  call_options : option NotificationOptions;
}.

Definition show_call (c : ShowCall) (s : State) : State :=
  fst (show (call_id c) (call_now c) (call_type c) (call_message c)
            (call_options c) s).

Definition show_all (cs : list ShowCall) (s : State) : State :=
  fold_left (fun acc c => show_call c acc) cs s.

(** The record a [show] call builds under configuration [c]. *)
Definition notification_of (c : ToastConfig) (call : ShowCall) : Notification :=
  {| id := call_id call;
     type := call_type call;
     message := call_message call;
     title := o ← call_options call; opt_title o;
     duration :=
       default (defaultDuration c) (o ← call_options call; read (opt_duration o));
     dismissible := default true (o ← call_options call; opt_dismissible o);
     timestamp := call_now call;
     action := o ← call_options call; opt_action o |}.

Definition ids (s : State) : list string := map id (_notifications s).

(** The bookkeeping of timers is tight: displayed ids are distinct, the
    timeout map only has entries for displayed records, every pending timer
    is the one the map holds for its record, and handles in use are older
    than the next one. *)
Record consistent (s : State) : Prop := mkConsistent {
  ids_nodup : NoDup (ids s);
  map_displayed : forall i h, timeoutMap s !! i = Some h -> i ∈ ids s;
  pending_mapped :
    forall h t, pendingTimers s !! h = Some t -> timeoutMap s !! timer_id t = Some h;
  pending_older :
    forall h t, pendingTimers s !! h = Some t -> (h < nextHandle s)%positive;
}.

(** No timer is left for the record with id [i]. *)
Definition no_timer_for (i : string) (s : State) : Prop :=
  timeoutMap s !! i = None /\
  forall h t, pendingTimers s !! h = Some t -> timer_id t <> i.

(** Every entry of the timeout map is the handle of a pending timer of
    that very record. *)
Definition paired (s : State) : Prop :=
  forall i h, timeoutMap s !! i = Some h ->
    exists t, pendingTimers s !! h = Some t /\ timer_id t = i.

(** [dismissAll()].  [order] is the ids in the order [timeoutMap.forEach]
    visits them (the order of insertion, which the finite map here does
    not keep). *)
Definition dismissAll (order : list string) (s : State) : State :=
  set_notifications [] (fold_left (fun acc i => clearTimeout i acc) order s).

(** The states of a service created with capacity [N] and then used
    through [show] (the host drawing an id that is not displayed),
    [dismiss], [pause], [resume] of a paused id, and expiring timers. *)
Inductive reachable (N : nat) : State -> Prop :=
| reach_new :
    reachable N (configure None (Some (Z.of_nat N)) None None initialState)
| reach_show s c :
    reachable N s -> call_id c ∉ ids s -> reachable N (show_call c s)
| reach_dismiss s i :
    reachable N s -> reachable N (dismiss i s)
| reach_pause s i :
    reachable N s -> reachable N (pause i s)
| reach_resume s i :
    reachable N s -> timeoutMap s !! i = None -> reachable N (resume i s)
| reach_fire s h :
    reachable N s -> reachable N (fire h s).

End Toast.

(** ** ErrorLoggingService and its models *)

Module ErrorLog.

Inductive ErrorSeverity : Type :=
| sev_info | sev_warning | sev_error | sev_critical.

Inductive ErrorCategory : Type :=
| network | authentication | authorization | validation
| server | client | unknown.

(** [AppError]; the context bag and the original error are carried along
    untouched and kept as text. *)
Record AppError : Type := mkAppError {
  id : string;
  code : string;
  message : string;
  userMessage : string;
  category : ErrorCategory;
  severity : ErrorSeverity;
  timestamp : Z;
  context : option string;
  originalError : option string;
}.

Record ErrorLogEntry : Type := mkEntry {
  entry_error : AppError;
  userAgent : option string;
  userId : option string;
  sessionId : option string;
  metadata : option (list (string * string));
}.

(** [ErrorLoggingHook]: [log] may throw, [shouldLog] is optional. *)
Record ErrorLoggingHook : Type := mkHook {
  name : string;
  log_hook : ErrorLogEntry -> Completion unit;
  shouldLog : option (AppError -> Completion bool);
}.

(** One call [console.warn(text, error)]: the text and the value that
    was caught. *)
Record ConsoleWarning : Type := mkWarning {
  warn_text : string;
  warn_error : string;
}.

Record State : Type := mkState {
  hooks : list ErrorLoggingHook;
  errorBuffer : list ErrorLogEntry;
  warnings : list ConsoleWarning;
}.

Definition maxBufferSize : nat := 100.

Definition newService (hs : list ErrorLoggingHook) : State :=
  {| hooks := hs; errorBuffer := []; warnings := [] |}.

Section Service.

(** [navigator.userAgent], when there is a [navigator]. *)
Variable navigator : option string.

Definition createLogEntry (e : AppError)
    (md : option (list (string * string))) : ErrorLogEntry :=
  {| entry_error := e; userAgent := navigator; userId := None;
     sessionId := None; metadata := md |}.

(** [private addToBuffer(entry)] on the array. *)
Definition addToBuffer (entry : ErrorLogEntry) (buf : list ErrorLogEntry)
    : list ErrorLogEntry :=
  let pushed := buf ++ [entry] in
  if (maxBufferSize <? length pushed)%nat then snd (shift pushed) else pushed.

Definition shouldLogToHook (hook : ErrorLoggingHook) (e : AppError)
    : Completion bool :=
  match shouldLog hook with
  | Some f => f e
  | None => Normal true
  end.

(** The template literal of the warning: the hook's name between double
    quotes (character 34), then [failed:]. *)
Definition hook_warning (hook : ErrorLoggingHook) : string :=
  ("Error logging hook " ++ String "034" (name hook ++ String "034" " failed:"))%string.

(** The [for] loop of [log]: a throwing [hook.log] is caught and reported
    on the console, with what it threw; a throwing [shouldLog] is outside
    the [try]. *)
Fixpoint run_hooks (hs : list ErrorLoggingHook) (e : AppError)
    (entry : ErrorLogEntry) (ws : list ConsoleWarning)
    : list ConsoleWarning * Completion unit :=
  match hs with
  | [] => (ws, Normal tt)
  | hook :: rest =>
      match shouldLogToHook hook e with
      | Throw x => (ws, Throw x)
      | Normal false => run_hooks rest e entry ws
      | Normal true =>
          match log_hook hook entry with
          | Normal _ => run_hooks rest e entry ws
          | Throw hookError =>
              run_hooks rest e entry
                (ws ++ [{| warn_text := hook_warning hook;
                           warn_error := hookError |}])
          end
      end
  end.

Definition log (e : AppError) (md : option (list (string * string)))
    (s : State) : State * Completion unit :=
  let entry := createLogEntry e md in
  let buf := addToBuffer entry (errorBuffer s) in
  let '(ws, r) := run_hooks (hooks s) e entry (warnings s) in
  ({| hooks := hooks s; errorBuffer := buf; warnings := ws |}, r).

Definition logWithSeverity (e : AppError) (sev : ErrorSeverity)
    (md : option (list (string * string))) (s : State) : State * Completion unit :=
  log {| id := id e; code := code e; message := message e;
         userMessage := userMessage e; category := category e;
         severity := sev; timestamp := timestamp e; context := context e;
         originalError := originalError e |} md s.

Definition clearBuffer (s : State) : State :=
  {| hooks := hooks s; errorBuffer := []; warnings := warnings s |}.


(** The entry a [log] call stores. *)
Definition entry_of (em : AppError * option (list (string * string)))
    : ErrorLogEntry :=
  createLogEntry (fst em) (snd em).

(** A run of [log] calls, errors in call order. *)
Definition log_all (es : list (AppError * option (list (string * string))))
    (s : State) : State :=
  fold_left (fun acc em => fst (log (fst em) (snd em) acc)) es s.

End Service.

#[global] Instance ErrorCategory_eq_dec : EqDecision ErrorCategory.
Proof. solve_decision. Defined.

(** The name under which a category is counted. *)
Definition category_name (c : ErrorCategory) : string :=
  match c with
  | network => "network"
  | authentication => "authentication"
  | authorization => "authorization"
  | validation => "validation"
  | server => "server"
  | client => "client"
  | unknown => "unknown"
  end.

(** [getErrorStats()]: [stats[category] = (stats[category] || 0) + 1] over
    the buffer. *)
Definition getErrorStats (s : State) : gmap string nat :=
  fold_left
    (fun stats entry =>
       let c := category_name (category (entry_error entry)) in
       <[c := (default 0 (stats !! c) + 1)%nat]> stats)
    (errorBuffer s) ∅.

(** The hook asks for the error. *)
Definition hook_wants (hook : ErrorLoggingHook) (e : AppError) : bool :=
  match shouldLog hook with
  | Some f => match f e with Normal true => true | _ => false end
  | None => true
  end.

(** What a hook that asks for the error leaves on the console: a warning
    if its [log] throws on the entry, nothing otherwise. *)
Definition hook_report (e : AppError) (entry : ErrorLogEntry)
    (hook : ErrorLoggingHook) : option ConsoleWarning :=
  if hook_wants hook e then
    match log_hook hook entry with
    | Throw hookError =>
        Some {| warn_text := hook_warning hook; warn_error := hookError |}
    | Normal _ => None
    end
  else None.

(** How many entries of a buffer are counted under the name [c]. *)
Definition count_category (c : string) (buf : list ErrorLogEntry) : nat :=
  length (List.filter
            (fun entry => String.eqb (category_name (category (entry_error entry))) c)
            buf).

(** [ConsoleLoggingHook]: logs nothing itself, and only wants errors on a
    development host.  [hostname] is [window.location.hostname], if there
    is a [window]. *)
Definition ConsoleLoggingHook (hostname : option string) : ErrorLoggingHook :=
  {| name := "console";
     log_hook := fun _ => Normal tt;
     shouldLog := Some (fun _ =>
       Normal match hostname with
              | Some host => String.eqb host "localhost" || String.eqb host "127.0.0.1"
              | None => false
              end) |}.

(** [RemoteLoggingHook.shouldLog]: errors and critical errors only. *)
Definition remote_shouldLog (e : AppError) : bool :=
  match severity e with
  | sev_error | sev_critical => true
  | _ => false
  end.

(** A [RemoteLoggingHook] with the given name: its [log] is [async] and
    swallows a failing [fetch], so the call itself never throws. *)
Definition RemoteLoggingHook (hookName : string) : ErrorLoggingHook :=
  {| name := hookName;
     log_hook := fun _ => Normal tt;
     shouldLog := Some (fun e => Normal (remote_shouldLog e)) |}.

End ErrorLog.

(** ** The guards built on the identity service *)

Module Guards.
Import Keycloak.

(** What a guard returns: [true], or the [UrlTree] built by
    [router.createUrlTree(commands)]. *)
Inductive GuardResult : Type :=
| Allow
| RedirectTo (commands : list string).

(** The two services the guards work on, and what they print with
    [console.log]: the instance, kept as "there is one or not". *)
Record World : Type := mkWorld {
  auth : Keycloak.State;
  toasts : Toast.State;
  logged : list bool;
}.

Definition titled (t : string) : Toast.NotificationOptions :=
  {| Toast.opt_title := Some t; Toast.opt_duration := Toast.Missing;
     Toast.opt_dismissible := None; Toast.opt_action := None |}.

(** [authGuard], the one that answers with a toast.  [newId] and [now] are
    what the toast service draws from the host if it shows a toast. *)
Definition authGuard (newId : string) (now : Z) (w : World) : World * GuardResult :=
  let w1 :=
    {| auth := auth w; toasts := toasts w;
       logged := logged w ++ [bool_decide (is_Some (keycloakInstance (auth w)))] |} in
  if isLoggedIn (auth w1) then (w1, Allow)
  else
    ({| auth := auth w1;
        toasts := fst (Toast.warning newId now "Please log in to access this page"
                         (Some (titled "Authentication Required")) (toasts w1));
        logged := logged w1 |},
     RedirectTo ["/auth/login"%string]).

(** [authGuardWithRoles(requiredRoles)] *)
Definition authGuardWithRoles (requiredRoles : list string)
    (newId : string) (now : Z) (w : World) : World * GuardResult :=
  if negb (isLoggedIn (auth w)) then
    ({| auth := auth w;
        toasts := fst (Toast.warning newId now "Please log in to access this page"
                         (Some (titled "Authentication Required")) (toasts w));
        logged := logged w |},
     RedirectTo ["/auth/login"%string])
  else if negb (hasAnyRole requiredRoles (auth w)) then
    ({| auth := auth w;
        toasts := fst (Toast.error newId now
                         "You do not have permission to access this page"
                         (Some (titled "Access Denied")) (toasts w));
        logged := logged w |},
     RedirectTo ["/"%string])
  else (w, Allow).

(** [guestGuard] *)
Definition guestGuard (s : Keycloak.State) : GuardResult :=
  if isLoggedIn s then RedirectTo ["/dashboard"%string] else Allow.

(** The other [authGuard], which sends the browser to the provider's
    login and remembers the attempted url. *)
Definition authGuard_login (origin : string) (url : string) (s : Keycloak.State)
    : Keycloak.State * Completion bool :=
  if isLoggedIn s then (s, Normal true)
  else
    match login origin (Some (origin ++ url)%string) s with
    | (s1, Normal _) => (s1, Normal false)
    | (s1, Throw e) => (s1, Throw e)
    end.

End Guards.

(** ** ErrorService: from a status code to category, severity and message *)

Module ErrorService.
Import ErrorLog.

(** [HttpErrorCode] *)
Definition BadRequest : Z := 400.
Definition Unauthorized : Z := 401.
Definition Forbidden : Z := 403.
Definition NotFound : Z := 404.
Definition MethodNotAllowed : Z := 405.
Definition Conflict : Z := 409.
Definition UnprocessableEntity : Z := 422.
Definition TooManyRequests : Z := 429.
Definition InternalServerError : Z := 500.
Definition BadGateway : Z := 502.
Definition ServiceUnavailable : Z := 503.
Definition GatewayTimeout : Z := 504.

(** A status code is an integer here. *)
Definition getCategoryFromStatus (status : Z) : ErrorCategory :=
  if (status =? 0)%Z then network
  else if (status =? Unauthorized)%Z then authentication
  else if (status =? Forbidden)%Z then authorization
  else if (status =? UnprocessableEntity)%Z || (status =? BadRequest)%Z then validation
  else if (500 <=? status)%Z then server
  else if (400 <=? status)%Z then client
  else unknown.

Definition getSeverityFromStatus (status : Z) : ErrorSeverity :=
  if (status =? 0)%Z then sev_error
  else if (status =? Unauthorized)%Z then sev_warning
  else if (status =? Forbidden)%Z then sev_warning
  else if (500 <=? status)%Z then sev_critical
  else if (400 <=? status)%Z then sev_error
  else sev_info.

Definition retryableCodes : list Z := [408; 429; 502; 503; 504]%Z.

Definition isRetryable (statusCode : Z) : bool :=
  existsb (Z.eqb statusCode) retryableCodes.

(** [table[statusCode]] on an object literal with number keys. *)
Fixpoint lookupStatus (table : list (Z * string)) (statusCode : Z) : option string :=
  match table with
  | [] => None
  | (k, v) :: rest => if (statusCode =? k)%Z then Some v else lookupStatus rest statusCode
  end.

Definition keyMap : list (Z * string) :=
  [ (0, "errors.network"); (400, "errors.badRequest");
    (401, "errors.unauthorized"); (403, "errors.forbidden");
    (404, "errors.notFound"); (405, "errors.methodNotAllowed");
    (409, "errors.conflict"); (422, "errors.validation");
    (429, "errors.tooManyRequests"); (500, "errors.serverError");
    (502, "errors.badGateway"); (503, "errors.serviceUnavailable");
    (504, "errors.gatewayTimeout") ]%Z.

Definition messageMap : list (Z * string) :=
  [ (0, "Unable to connect. Please check your internet connection.");
    (400, "Invalid request. Please check your input and try again.");
    (401, "Your session has expired. Please log in again.");
    (403, "You do not have permission to perform this action.");
    (404, "The requested resource was not found.");
    (405, "This operation is not allowed.");
    (409, "This operation conflicts with existing data.");
    (422, "Please correct the validation errors and try again.");
    (429, "Too many requests. Please wait a moment and try again.");
    (500, "A server error occurred. Please try again later.");
    (502, "The server is temporarily unavailable. Please try again.");
    (503, "The service is currently unavailable. Please try again later.");
    (504, "The request timed out. Please try again.") ]%Z.

Definition getMessageKey (statusCode : Z) : string :=
  or_default (lookupStatus keyMap statusCode) "errors.unexpected".

Definition getDefaultMessage (statusCode : Z) : string :=
  or_default (lookupStatus messageMap statusCode)
             "An unexpected error occurred. Please try again.".

Section Translated.

(** [translate.instant], which returns the key itself when it has no
    translation for it. *)
Variable instant : string -> string.

Definition getUserMessage (statusCode : Z) : string :=
  let messageKey := getMessageKey statusCode in
  let translated := instant messageKey in
  if negb (String.eqb translated messageKey) then translated
  else getDefaultMessage statusCode.

End Translated.

End ErrorService.

(** ** ToastContainerComponent: the handlers wired to the toast items *)

Module ToastContainer.
Import Toast.

Definition onDismiss (i : string) (s : State) : State := dismiss i s.

Definition onMouseEnter (i : string) (s : State) : State :=
  if pauseOnHover (_config s) then pause i s else s.

Definition onMouseLeave (i : string) (s : State) : State :=
  if pauseOnHover (_config s) then resume i s else s.

End ToastContainer.

(** ** Sample data for the closed instances *)

Module UsersSamples.
Import Users.

Definition john : User := {| id := "1"; name := "John Doe"; email := "john@example.com" |}.
Definition jane : User := {| id := "2"; name := "Jane Smith"; email := "jane@example.com" |}.

(** The state after [loadUsers] and the [loadUsersSuccess] the load effect
    answers with. *)
Definition loadedState : UsersState :=
  usersReducer (usersReducer initialUsersState loadUsers)
               (loadUsersSuccess [john; jane]).

End UsersSamples.

Module AuthSamples.
Import Keycloak RoleGuard.

(** The origin of the development server. *)
Definition appOrigin : string := "http://localhost:4200".

(** A provider whose every call fails, holding a token with the realm
    roles [rs]. *)
Definition failingProvider (rs : list string) : Instance :=
  {| authenticated := Some true;
     token := Some "token"%string;
     refreshToken := None;
     tokenParsed :=
       Some {| exp := None; sub := None; realm_access := Some rs;
               resource_access := None |};
     on_init := Rejected "init failed";
     on_login := Rejected "login failed";
     on_logout := Rejected "logout failed";
     on_updateToken := fun _ => Rejected "refresh failed";
     on_loadUserProfile := Rejected "profile failed" |}.

(** A provider that answers every call, for a user known by her first
    name only. *)
Definition adaProvider : Instance :=
  {| authenticated := Some true;
     token := Some "token"%string;
     refreshToken := None;
     tokenParsed :=
       Some {| exp := None; sub := None; realm_access := Some ["admin"%string];
               resource_access := None |};
     on_init := Resolved true;
     on_login := Resolved tt;
     on_logout := Resolved tt;
     on_updateToken := fun _ => Resolved true;
     on_loadUserProfile :=
       Resolved {| profile_id := Some "u1"%string; profile_email := None;
                   profile_emailVerified := None;
                   profile_firstName := Some "Ada"%string;
                   profile_lastName := None;
                   profile_username := Some "ada"%string |} |}.

Definition sessionWith (kc : Instance) : State :=
  {| keycloakInstance := Some kc; isAuthenticatedSubject := true;
     userSubject := None; effects := [] |}.

(** A logged-in session whose token carries the realm roles [rs]. *)
Definition sessionWithRoles (rs : list string) : State :=
  sessionWith (failingProvider rs).

Definition routeAny (required : list string) : RouteData :=
  {| roles := Some required; requireAll := JsUndefined |}.

Definition routeAll (required : list string) : RouteData :=
  {| roles := Some required; requireAll := JsBool true |}.

End AuthSamples.

Module ToastSamples.
Import Toast.

(** A fresh service after one [info] toast with the default options. *)
Definition savedToast : Notification :=
  {| id := "toast_1"; type := TInfo; title := None; message := "Saved";
     duration := 5000%float; dismissible := true; timestamp := 0;
     action := None |}.

Definition oneToast : State :=
  fst (show "toast_1" 0 TInfo "Saved" None initialState).

(** A fresh service after one [info] toast asked to stay for the smallest
    positive double, 5e-324 ms. *)
Definition briefToast : Notification :=
  {| id := "toast_1"; type := TInfo; title := None; message := "Saved";
     duration := 0x1p-1074%float; dismissible := true; timestamp := 0;
     action := None |}.

Definition oneBriefToast : State :=
  fst (show "toast_1" 0 TInfo "Saved"
         (Some (mkOptions None (Given 0x1p-1074%float) None None)) initialState).

(** A service configured to show no toast at all. *)
Definition zeroCapacity : State :=
  configure None (Some 0%Z) None None initialState.

End ToastSamples.

Module ErrorSamples.
Import ErrorLog.

Definition sampleError : AppError :=
  {| id := "err_1"; code := "HTTP_500"; message := "boom";
     userMessage := "A server error occurred. Please try again later.";
     category := server; severity := sev_critical; timestamp := 0;
     context := None; originalError := None |}.

(** A hook whose [log] throws, and one whose [shouldLog] throws. *)
Definition brokenHook : ErrorLoggingHook :=
  {| name := "broken"; log_hook := fun _ => Throw "down"; shouldLog := None |}.

Definition brokenFilter : ErrorLoggingHook :=
  {| name := "filter"; log_hook := fun _ => Normal tt;
     shouldLog := Some (fun _ => Throw "no filter") |}.

End ErrorSamples.

(** * Properties *)

(** ** The users store *)

Section UsersStore.
Import Users UsersSamples.

Example loadedState_value :
  loadedState =
  {| users := [john; jane]; selectedUserId := None; isLoading := false; error := None |}.
Proof. reflexivity. Qed.

(** The transition for [deleteUser] never touches the list. *)
Lemma usersReducer_deleteUser_users (s : UsersState) (uid : string) :
  users (usersReducer s (deleteUser uid)) = users s.
Proof. reflexivity. Qed.

(** Neither does the one for [deleteUserFailure]; it records the error. *)
Lemma usersReducer_deleteUserFailure (s : UsersState) (msg : string) :
  users (usersReducer s (deleteUserFailure msg)) = users s /\
  error (usersReducer s (deleteUserFailure msg)) = Some msg /\
  isLoading (usersReducer s (deleteUserFailure msg)) = false.
Proof. repeat split. Qed.

(** The record leaves the list in the transition for [deleteUserSuccess]. *)
Lemma usersReducer_deleteUserSuccess_removes (s : UsersState) (uid : string) :
  hasUser uid (usersReducer s (deleteUserSuccess uid)) = false.
Proof.
  unfold hasUser; simpl.
  induction (users s) as [|u us IH]; simpl; [reflexivity|].
  destruct (String.eqb (id u) uid) eqn:E; simpl; [exact IH|].
  rewrite E; exact IH.
Qed.

(** C1 (evaluation of the reducer where the claim fails): in the loaded
    state, the transition for [deleteUser] with userId "1" leaves the user
    with id "1" in the list (it only raises [isLoading] and clears
    [error]); a following [deleteUserFailure] again leaves the list as it
    is and stores the error string; the record is removed by
    [deleteUserSuccess] only. *)
Theorem deleteUser_is_not_optimistic :
  let s1 := usersReducer loadedState (deleteUser "1") in
  let s2 := usersReducer s1 (deleteUserFailure "delete failed") in
  users s1 = [john; jane] /\ hasUser "1" s1 = true /\
  isLoading s1 = true /\ error s1 = None /\
  users s2 = [john; jane] /\ error s2 = Some "delete failed"%string /\
  users (usersReducer s1 (deleteUserSuccess "1")) = [jane].
Proof. repeat split. Qed.

(** With the delete call the source ships, the effect always answers with
    [deleteUserSuccess]. *)
Example dispatch_deleteUser_stub :
  users (dispatch stub_delete_call loadedState (deleteUser "1")) = [jane].
Proof. reflexivity. Qed.

End UsersStore.

(** ** BaseApiService.buildUrl *)

Section BuildUrl.
Import Api.

Lemma startsWith_slash (p : string) :
  startsWith p "/" = true <-> exists rest, p = String "/" rest.
Proof.
  unfold startsWith. destruct p as [|c rest]; cbn -[Ascii.ascii_dec].
  - split; [discriminate | intros [r Hr]; discriminate].
  - destruct (Ascii.ascii_dec "/" c) as [<-|Hne].
    + split; [eauto | intros _; by destruct rest].
    + split; [discriminate | intros [r Hr]; congruence].
Qed.

Lemma leadingSlashes_normalizedEndpoint (p : string) :
  leadingSlashes (normalizedEndpoint p) = Nat.max 1 (leadingSlashes p).
Proof.
  unfold normalizedEndpoint.
  destruct (startsWith p "/") eqn:E.
  - apply startsWith_slash in E as [rest ->]. simpl. lia.
  - assert (leadingSlashes p = 0%nat) as Hz.
    { destruct p as [|c rest]; [reflexivity|]. simpl.
      destruct (Ascii.ascii_dec c "/") as [->|Hne].
      - exfalso. assert (startsWith (String "/" rest) "/" = true) as Ht
          by (apply startsWith_slash; eauto). congruence.
      - destruct c as [[] [] [] [] [] [] [] []]; try reflexivity. congruence. }
    simpl. rewrite Hz. reflexivity.
Qed.

(** C2 (the claim as stated fails): the path "//users" has no scheme
    prefix, and the endpoint part of the result begins with two slashes. *)
Lemma buildUrl_keeps_double_slash :
  isFullUrl "//users" = false /\
  buildUrl "http://localhost:3000/api" "//users" = "http://localhost:3000/api//users"%string /\
  leadingSlashes (normalizedEndpoint "//users") = 2%nat /\
  leadingSlashes (normalizedEndpoint "//users") <> 1%nat.
Proof. repeat split; discriminate. Qed.

(** C2 (amended): for every path without an [http://] or [https://]
    prefix [buildUrl] returns the base followed by the normalized path;
    the normalized path is the path itself when it begins with a slash and
    the path behind one added slash otherwise, so it begins with
    [max 1 k] slashes when the path begins with [k]: at least one, and
    exactly one whenever the path begins with at most one. *)
Theorem buildUrl_relative (baseUrl p : string) :
  isFullUrl p = false ->
  buildUrl baseUrl p = (baseUrl ++ normalizedEndpoint p)%string /\
  normalizedEndpoint p = (if startsWith p "/" then p else String "/" p) /\
  leadingSlashes (normalizedEndpoint p) = Nat.max 1 (leadingSlashes p) /\
  (1 <= leadingSlashes (normalizedEndpoint p))%nat /\
  ((leadingSlashes p <= 1)%nat -> leadingSlashes (normalizedEndpoint p) = 1%nat).
Proof.
  intros Hrel. unfold buildUrl. rewrite Hrel.
  pose proof (leadingSlashes_normalizedEndpoint p) as Hn.
  repeat split; [exact Hn | lia | lia].
Qed.

Lemma buildUrl_relative_witness :
  isFullUrl "users" = false /\
  buildUrl "http://localhost:3000/api" "users" = "http://localhost:3000/api/users"%string /\
  leadingSlashes (normalizedEndpoint "users") = 1%nat.
Proof.
  pose proof (buildUrl_relative "http://localhost:3000/api" "users" eq_refl)
    as (Hb & _ & _ & _ & Hone).
  split; [reflexivity|]. split; [exact Hb|]. apply Hone. simpl. lia.
Defined.

(** A full URL is passed through whatever the base. *)
Lemma buildUrl_full (baseUrl p : string) :
  isFullUrl p = true -> buildUrl baseUrl p = p.
Proof. intros H. unfold buildUrl. by rewrite H. Qed.

End BuildUrl.

(** ** The identity service *)

Section KeycloakService.
Import Keycloak AuthSamples.

Variable origin : string.

(** A role check is membership in the list [getUserRoles] returns. *)
Lemma hasRole_getUserRoles (role : string) (s : State) :
  hasRole role s = bool_decide (role ∈ getUserRoles s).
Proof.
  unfold hasRole, getUserRoles, getTokenParsed, hasRealmRole.
  destruct (keycloakInstance s) as [kc|]; simpl; [|reflexivity].
  destruct (tokenParsed kc) as [tp|]; simpl; [|reflexivity].
  destruct (realm_access tp) as [rs|]; reflexivity.
Qed.

Lemma hasAnyRole_spec (required : list string) (s : State) :
  hasAnyRole required s = true <->
  exists role, role ∈ required /\ role ∈ getUserRoles s.
Proof.
  unfold hasAnyRole. rewrite existsb_exists. split.
  - intros (role & Hin & Hrole). exists role. split.
    + by apply list_elem_of_In.
    + rewrite hasRole_getUserRoles in Hrole. by apply bool_decide_eq_true in Hrole.
  - intros (role & Hin & Hrole). exists role. split.
    + by apply list_elem_of_In.
    + rewrite hasRole_getUserRoles. by apply bool_decide_eq_true.
Qed.

Lemma hasAllRoles_spec (required : list string) (s : State) :
  hasAllRoles required s = true <->
  forall role, role ∈ required -> role ∈ getUserRoles s.
Proof.
  unfold hasAllRoles. rewrite forallb_forall. split.
  - intros H role Hin. apply list_elem_of_In, H in Hin.
    rewrite hasRole_getUserRoles in Hin. by apply bool_decide_eq_true in Hin.
  - intros H role Hin. rewrite hasRole_getUserRoles.
    apply bool_decide_eq_true, H. by apply list_elem_of_In.
Qed.

(** What [logout] does once the instance exists. *)
Lemma logout_initialized (uri : option string) (s : State) (kc : Instance) :
  keycloakInstance s = Some kc ->
  logout origin uri s =
  (emit (ProviderLogout (or_default uri origin))
        (next_user None (next_isAuthenticated false s)),
   Normal (on_logout kc)).
Proof. intros H. unfold logout. by rewrite H. Qed.

(** C4: when the provider's refresh call rejects, [updateToken] resolves
    to false; the service has called the provider's refresh once and its
    logout once (nothing else but the console message), and is left
    unauthenticated with no user. *)
Theorem updateToken_rejected_fails_closed
    (s : State) (kc : Instance) (minValidity : Z) (e : string) :
  keycloakInstance s = Some kc ->
  on_updateToken kc minValidity = Rejected e ->
  let r := updateToken origin minValidity s in
  snd r = Resolved false /\
  isAuthenticatedSubject (fst r) = false /\
  userSubject (fst r) = None /\
  effects (fst r) =
    effects s ++ [ProviderUpdateToken minValidity;
                  ConsoleError "Failed to refresh token";
                  ProviderLogout origin] /\
  keycloakInstance (fst r) = Some kc.
Proof.
  intros Hkc Hrej. unfold updateToken. rewrite Hkc, Hrej.
  rewrite (logout_initialized None _ kc) by exact Hkc.
  simpl. rewrite <- !app_assoc. by repeat split.
Qed.

(** The handlers installed by [setupTokenRefresh] go through the same
    single attempt. *)
Lemma onTokenExpired_rejected (s : State) (kc : Instance) (e : string) :
  keycloakInstance s = Some kc ->
  on_updateToken kc 30 = Rejected e ->
  effects (onTokenExpired origin s) =
    effects s ++ [ConsoleWarn "Token expired, refreshing...";
                  ProviderUpdateToken 30;
                  ConsoleError "Failed to refresh token";
                  ProviderLogout origin].
Proof.
  intros Hkc Hrej. unfold onTokenExpired, updateToken. simpl.
  rewrite Hkc, Hrej.
  rewrite (logout_initialized None _ kc) by exact Hkc.
  simpl. rewrite <- !app_assoc. reflexivity.
Qed.


End KeycloakService.

Section KeycloakInstances.
Import Keycloak AuthSamples.

Lemma updateToken_rejected_fails_closed_witness :
  let r := updateToken appOrigin 30 (sessionWith (failingProvider [])) in
  snd r = Resolved false /\
  isAuthenticatedSubject (fst r) = false /\
  effects (fst r) = [ProviderUpdateToken 30;
                     ConsoleError "Failed to refresh token";
                     ProviderLogout appOrigin].
Proof.
  pose proof (updateToken_rejected_fails_closed appOrigin
                (sessionWith (failingProvider [])) (failingProvider []) 30
                "refresh failed" eq_refl eq_refl) as (Hr & Ha & _ & He & _).
  exact (conj Hr (conj Ha He)).
Defined.


End KeycloakInstances.

(** ** The role guard *)

Section RoleGuardProperties.
Import Keycloak RoleGuard AuthSamples.

Variable origin : string.

(** The guard's answer once the user is logged in and roles are required. *)
Lemma roleGuard_decision (data : RouteData) (url : string) (s : State)
    (required : list string) :
  isLoggedIn s = true ->
  roles data = Some required ->
  required <> [] ->
  snd (roleGuard origin data url s) =
  Normal (if strictly_true (requireAll data)
          then hasAllRoles required s else hasAnyRole required s).
Proof.
  intros Hin Hroles Hne. unfold roleGuard. rewrite Hin, Hroles. simpl.
  destruct required as [|r rs]; [congruence|].
  by destruct (strictly_true (requireAll data));
    [destruct (hasAllRoles (r :: rs) s) | destruct (hasAnyRole (r :: rs) s)].
Qed.

(** [=== true] holds of the boolean true and of no other value. *)
Lemma strictly_true_spec (v : JsValue) :
  strictly_true v = true <-> v = JsBool true.
Proof.
  split; [|by intros ->].
  by destruct v as [|[]| |].
Qed.

(** C3: for a logged-in user and a non-empty list of required roles, the
    guard returns true or false without throwing; when the route's
    [requireAll] is anything but the boolean true (absent, false, a
    string, a number) it returns true exactly when some required role is
    among the user's realm roles, and when [requireAll] is the boolean
    true exactly when every required role is. *)
Theorem roleGuard_any_all (data : RouteData) (url : string) (s : State)
    (required : list string) :
  isLoggedIn s = true ->
  roles data = Some required ->
  required <> [] ->
  (exists b, snd (roleGuard origin data url s) = Normal b) /\
  (requireAll data <> JsBool true ->
     (snd (roleGuard origin data url s) = Normal true <->
      exists role, role ∈ required /\ role ∈ getUserRoles s)) /\
  (requireAll data = JsBool true ->
     (snd (roleGuard origin data url s) = Normal true <->
      forall role, role ∈ required -> role ∈ getUserRoles s)).
Proof.
  intros Hin Hroles Hne.
  rewrite (roleGuard_decision data url s required Hin Hroles Hne).
  split; [eauto|]. split; intros Hall.
  - assert (strictly_true (requireAll data) = false) as ->.
    { destruct (strictly_true (requireAll data)) eqn:E; [|reflexivity].
      by apply strictly_true_spec in E. }
    rewrite <- hasAnyRole_spec. split; [by intros [= ->] | by intros ->].
  - rewrite Hall. simpl.
    rewrite <- hasAllRoles_spec. split; [by intros [= ->] | by intros ->].
Qed.

(** The four cases the specification lists. *)
Example roleGuard_any_B :
  snd (roleGuard origin (routeAny ["A"; "B"]) "/admin" (sessionWithRoles ["B"]))
  = Normal true.
Proof. reflexivity. Qed.

Example roleGuard_any_none :
  roleGuard origin (routeAny ["A"; "B"]) "/admin" (sessionWithRoles [])
  = (emit (RouterNavigate ["/unauthorized"%string])
       (emit (ConsoleWarn "RoleGuard: User does not have required roles")
          (sessionWithRoles [])),
     Normal false).
Proof. reflexivity. Qed.

Example roleGuard_all_A :
  snd (roleGuard origin (routeAll ["A"; "B"]) "/admin" (sessionWithRoles ["A"]))
  = Normal false.
Proof. reflexivity. Qed.

Example roleGuard_all_superset :
  snd (roleGuard origin (routeAll ["A"; "B"]) "/admin"
         (sessionWithRoles ["C"; "B"; "A"]))
  = Normal true.
Proof. reflexivity. Qed.

(** C10: for a logged-in user, a route without a [roles] entry or with an
    empty one is let through: the guard warns on the console and returns
    true, whatever roles the session holds. *)
Theorem roleGuard_no_roles (data : RouteData) (url : string) (s : State) :
  isLoggedIn s = true ->
  roles data = None \/ roles data = Some [] ->
  roleGuard origin data url s =
  (emit (ConsoleWarn "RoleGuard: No roles specified in route data") s,
   Normal true).
Proof.
  intros Hin Hroles. unfold roleGuard. rewrite Hin. simpl.
  by destruct Hroles as [-> | ->].
Qed.

(** Without a session the guard asks for a login and refuses; without an
    instance that request throws. *)
Example roleGuard_not_initialized :
  snd (roleGuard origin (routeAny ["A"]) "/admin" initialState)
  = Throw "Keycloak not initialized".
Proof. reflexivity. Qed.

End RoleGuardProperties.

Section RoleGuardInstances.
Import Keycloak RoleGuard AuthSamples.

Lemma roleGuard_any_all_witness :
  snd (roleGuard appOrigin (routeAny ["A"; "B"]) "/admin" (sessionWithRoles ["B"]))
    = Normal true /\
  snd (roleGuard appOrigin (routeAll ["A"; "B"]) "/admin" (sessionWithRoles ["A"]))
    <> Normal true /\
  snd (roleGuard appOrigin (routeAll ["A"; "B"]) "/admin"
         (sessionWithRoles ["C"; "B"; "A"]))
    = Normal true /\
  snd (roleGuard appOrigin {| roles := Some ["A"; "B"]; requireAll := JsString "true" |}
         "/admin" (sessionWithRoles ["A"]))
    = Normal true.
Proof.
  pose proof (roleGuard_any_all appOrigin (routeAny ["A"; "B"]) "/admin"
                (sessionWithRoles ["B"]) ["A"; "B"]%string
                eq_refl eq_refl ltac:(discriminate)) as (_ & Hany & _).
  pose proof (roleGuard_any_all appOrigin (routeAll ["A"; "B"]) "/admin"
                (sessionWithRoles ["A"]) ["A"; "B"]%string
                eq_refl eq_refl ltac:(discriminate)) as (_ & _ & Hall).
  pose proof (roleGuard_any_all appOrigin (routeAll ["A"; "B"]) "/admin"
                (sessionWithRoles ["C"; "B"; "A"]) ["A"; "B"]%string
                eq_refl eq_refl ltac:(discriminate)) as (_ & _ & Hsup).
  pose proof (roleGuard_any_all appOrigin
                {| roles := Some ["A"; "B"]; requireAll := JsString "true" |} "/admin"
                (sessionWithRoles ["A"]) ["A"; "B"]%string
                eq_refl eq_refl ltac:(discriminate)) as (_ & Hstr & _).
  split; [|split; [|split]].
  - apply (Hany ltac:(discriminate)). exists "B"%string.
    split; [right; left | left].
  - intros Hgrant.
    pose proof (proj1 (Hall eq_refl) Hgrant "B"%string ltac:(right; left)) as HB.
    apply list_elem_of_singleton in HB. discriminate HB.
  - apply (Hsup eq_refl). intros role Hrole.
    apply elem_of_cons in Hrole as [->|Hrole]; [right; right; left|].
    apply list_elem_of_singleton in Hrole as ->. right; left.
  - apply (Hstr ltac:(discriminate)). exists "A"%string.
    split; left.
Defined.

Lemma roleGuard_no_roles_witness :
  snd (roleGuard appOrigin {| roles := Some []; requireAll := JsBool true |}
         "/users" (sessionWithRoles [])) = Normal true /\
  snd (roleGuard appOrigin {| roles := None; requireAll := JsUndefined |}
         "/users" (sessionWithRoles ["A"])) = Normal true.
Proof.
  split.
  - rewrite (roleGuard_no_roles appOrigin {| roles := Some []; requireAll := JsBool true |}
               "/users" (sessionWithRoles []) eq_refl (or_intror eq_refl)).
    reflexivity.
  - rewrite (roleGuard_no_roles appOrigin {| roles := None; requireAll := JsUndefined |}
               "/users" (sessionWithRoles ["A"]) eq_refl (or_introl eq_refl)).
    reflexivity.
Defined.

End RoleGuardInstances.

(** ** The toast service *)

Section ToastProperties.
Import Toast.

Lemma clearTimeout_lookup (i : string) (s : State) :
  timeoutMap (clearTimeout i s) !! i = None.
Proof.
  unfold clearTimeout. destruct (timeoutMap s !! i) as [h|] eqn:E; [|exact E].
  simpl. apply lookup_delete_eq.
Qed.

Lemma clearTimeout_absent (i : string) (s : State) :
  timeoutMap s !! i = None -> clearTimeout i s = s.
Proof. intros E. unfold clearTimeout. by rewrite E. Qed.

Lemma clearTimeout_notifications (i : string) (s : State) :
  _notifications (clearTimeout i s) = _notifications s.
Proof. unfold clearTimeout. by destruct (timeoutMap s !! i). Qed.

Lemma filter_twice {A : Type} (f : A -> bool) (l : list A) :
  List.filter f (List.filter f l) = List.filter f l.
Proof.
  induction l as [|x l IH]; simpl; [reflexivity|].
  destruct (f x) eqn:E; simpl; [rewrite E; f_equal|]; exact IH.
Qed.

(** C9: a second [dismiss] of the same id changes nothing: the list, the
    timeout map, the host's pending timers and the record of calls made to
    the host's timer functions are those left by the first call. *)
Theorem dismiss_idempotent (i : string) (s : State) :
  dismiss i (dismiss i s) = dismiss i s.
Proof.
  unfold dismiss at 1.
  rewrite (clearTimeout_absent i (dismiss i s)).
  - unfold dismiss. simpl. rewrite filter_twice. reflexivity.
  - unfold dismiss. simpl. apply clearTimeout_lookup.
Qed.

(** C6: for a displayed notification with a positive duration whose
    removal timer is pending, whatever the delay that timer still has,
    [pause] cancels that timer (one [clearTimeout] on its handle, no entry
    left in the timeout map), and a following [resume] sets one new timer
    for the same id whose delay is the notification's stored duration
    divided by [2] as the host divides doubles: the quotient rounded to
    the nearest double, not the time that was left. *)
Theorem pause_resume_half_duration
    (s : State) (i : string) (n : Notification) (h : positive) :
  List.find (fun n => String.eqb (id n) i) (_notifications s) = Some n ->
  (0 <? duration n)%float = true ->
  timeoutMap s !! i = Some h ->
  let s1 := pause i s in
  let s2 := resume i s1 in
  let half := (duration n / 2)%float in
  timeoutMap s1 !! i = None /\
  pendingTimers s1 !! h = None /\
  timerCalls s1 = timerCalls s ++ [CallClearTimeout h] /\
  _notifications s2 = _notifications s /\
  exists h',
    timeoutMap s2 !! i = Some h' /\
    pendingTimers s2 !! h' = Some {| timer_id := i; delay := half |} /\
    timerCalls s2 = timerCalls s1 ++ [CallSetTimeout h' i half].
Proof.
  intros Hfind Hpos Hmap. simpl.
  assert (pause i s =
          set_timeoutMap (delete i (timeoutMap s)) (host_clearTimeout h s)) as Hp.
  { unfold pause, clearTimeout. by rewrite Hmap. }
  rewrite Hp.
  split; [apply lookup_delete_eq|].
  split; [apply lookup_delete_eq|].
  split; [reflexivity|].
  unfold resume. simpl. rewrite Hfind.
  unfold positive_duration. rewrite Hpos.
  split; [reflexivity|].
  eexists. simpl.
  split; [apply lookup_insert_eq|].
  split; [apply lookup_insert_eq|reflexivity].
Qed.

End ToastProperties.

Section ToastInstances.
Import Toast ToastSamples.

Lemma pause_resume_half_duration_witness :
  List.find (fun n => String.eqb (id n) "toast_1") (_notifications oneToast)
    = Some savedToast /\
  timeoutMap oneToast !! "toast_1"%string = Some 1%positive /\
  timeoutMap (pause "toast_1" oneToast) !! "toast_1"%string = None /\
  exists h',
    pendingTimers (resume "toast_1" (pause "toast_1" oneToast)) !! h' =
    Some {| timer_id := "toast_1"; delay := 2500%float |}.
Proof.
  assert (List.find (fun n => String.eqb (id n) "toast_1") (_notifications oneToast)
          = Some savedToast) as Hfind by reflexivity.
  assert (timeoutMap oneToast !! "toast_1"%string = Some 1%positive) as Hmap
    by reflexivity.
  assert ((0 <? duration savedToast)%float = true) as Hpos by reflexivity.
  destruct (pause_resume_half_duration oneToast "toast_1" savedToast 1 Hfind Hpos Hmap)
    as (Hnone & _ & _ & _ & h' & _ & Hpending & _).
  split; [exact Hfind|]. split; [exact Hmap|]. split; [exact Hnone|].
  exists h'. exact Hpending.
Defined.

(** 5000 ms become 2500 ms. *)
Example resume_default_duration :
  (5000 / 2 = 2500)%float.
Proof. reflexivity. Qed.

(** C6, where the quotient is rounded: a toast shown for the smallest
    positive double (5e-324 ms) has a positive duration and a pending
    timer; after [pause] and [resume] its new timer has delay [0], and
    twice that delay is not the duration. *)
Lemma resume_smallest_duration_rounds_to_zero :
  List.find (fun n => String.eqb (id n) "toast_1") (_notifications oneBriefToast)
    = Some briefToast /\
  (0 <? duration briefToast)%float = true /\
  timeoutMap oneBriefToast !! "toast_1"%string = Some 1%positive /\
  pendingTimers (resume "toast_1" (pause "toast_1" oneBriefToast)) !! 2%positive =
    Some {| timer_id := "toast_1"; delay := 0%float |} /\
  timerCalls (resume "toast_1" (pause "toast_1" oneBriefToast)) =
    [CallSetTimeout 1 "toast_1" (duration briefToast);
     CallClearTimeout 1;
     CallSetTimeout 2 "toast_1" 0%float] /\
  (0 * 2 =? duration briefToast)%float = false.
Proof. repeat split; reflexivity. Qed.

End ToastInstances.

Section ToastCapacity.
Import Toast.

Lemma clearTimeout_timeoutMap (i : string) (s : State) :
  timeoutMap (clearTimeout i s) = delete i (timeoutMap s).
Proof.
  unfold clearTimeout. destruct (timeoutMap s !! i) as [h|] eqn:E; simpl.
  - reflexivity.
  - symmetry. apply delete_id. exact E.
Qed.

Lemma clearTimeout_pending (i : string) (s : State) (h : positive) (t : Timer) :
  pendingTimers (clearTimeout i s) !! h = Some t ->
  pendingTimers s !! h = Some t /\ timeoutMap s !! i <> Some h.
Proof.
  unfold clearTimeout. destruct (timeoutMap s !! i) as [h0|] eqn:E; simpl.
  - intros H. apply lookup_delete_Some in H as [Hne Hl]. split; [exact Hl|congruence].
  - intros H. split; [exact H|discriminate].
Qed.

Lemma clearTimeout_nextHandle (i : string) (s : State) :
  nextHandle (clearTimeout i s) = nextHandle s.
Proof. unfold clearTimeout. by destruct (timeoutMap s !! i). Qed.

Lemma clearTimeout_config (i : string) (s : State) :
  _config (clearTimeout i s) = _config s.
Proof. unfold clearTimeout. by destruct (timeoutMap s !! i). Qed.

(** A record that is not displayed has no timer. *)
Lemma consistent_no_timer (s : State) (i : string) :
  consistent s -> i ∉ ids s -> no_timer_for i s.
Proof.
  intros Hc Hni. split.
  - destruct (timeoutMap s !! i) as [h|] eqn:E; [|reflexivity].
    exfalso. apply Hni. eapply map_displayed; eauto.
  - intros h t Ht Heq. apply Hni. subst i.
    eapply map_displayed; [exact Hc|]. eapply pending_mapped; eauto.
Qed.

(** Evicting the last record and cancelling its timer. *)
Lemma consistent_evict (s : State) (rest : list Notification) (removed : Notification) :
  (forall i h, timeoutMap s !! i = Some h -> i ∈ map id (rest ++ [removed])) ->
  (forall h t, pendingTimers s !! h = Some t -> timeoutMap s !! timer_id t = Some h) ->
  (forall h t, pendingTimers s !! h = Some t -> (h < nextHandle s)%positive) ->
  NoDup (map id (rest ++ [removed])) ->
  consistent (set_notifications rest (clearTimeout (id removed) s)).
Proof.
  intros Hmap Hpend Hold Hnd.
  rewrite map_app in Hnd. apply NoDup_app in Hnd as (Hnd & Hdisj & _).
  split.
  - exact Hnd.
  - intros i h. unfold ids. simpl. rewrite clearTimeout_timeoutMap.
    intros H. apply lookup_delete_Some in H as [Hne Hl].
    apply Hmap in Hl. rewrite map_app in Hl. apply elem_of_app in Hl as [Hl|Hl];
      [exact Hl|]. simpl in Hl. apply list_elem_of_singleton in Hl. congruence.
  - intros h t. simpl. intros H. apply clearTimeout_pending in H as [Hl Hne].
    rewrite clearTimeout_timeoutMap. apply lookup_delete_Some. split.
    + intros Heq. apply Hne. rewrite Heq. by apply Hpend.
    + by apply Hpend.
  - intros h t. simpl. intros H. apply clearTimeout_pending in H as [Hl _].
    rewrite clearTimeout_nextHandle. eapply Hold; eauto.
Qed.

(** Scheduling the removal of a displayed record that has no timer yet. *)
Lemma consistent_scheduleRemoval (s : State) (i : string) (ms : float) :
  consistent s -> i ∈ ids s -> timeoutMap s !! i = None ->
  consistent (scheduleRemoval i ms s).
Proof.
  intros Hc Hin Hnone. unfold scheduleRemoval. simpl. split; simpl.
  - apply Hc.
  - intros j h H. apply lookup_insert_Some in H as [[<- _]|[Hne Hl]]; [exact Hin|].
    exact (map_displayed s Hc j h Hl).
  - intros h t H. apply lookup_insert_Some in H as [[<- <-]|[Hne Hl]]; simpl.
    + apply lookup_insert_eq.
    + pose proof (pending_mapped s Hc h t Hl) as Hm.
      rewrite lookup_insert_ne; [exact Hm|]. intros Heq. congruence.
  - intros h t H. apply lookup_insert_Some in H as [[<- _]|[Hne Hl]].
    + lia.
    + pose proof (pending_older s Hc h t Hl). lia.
Qed.

Lemma consistent_prepend (s : State) (n : Notification) :
  consistent s -> id n ∉ ids s ->
  consistent (set_notifications (n :: _notifications s) s).
Proof.
  intros Hc Hni. split; simpl.
  - unfold ids. simpl. apply NoDup_cons. split; [exact Hni|apply Hc].
  - intros i h H. unfold ids. simpl. right. exact (map_displayed s Hc i h H).
  - apply Hc.
  - apply Hc.
Qed.

(** One [show] on a service with room for at least one toast. *)
Lemma show_step (s : State) (c : ShowCall) :
  consistent s ->
  call_id c ∉ ids s ->
  (1 <= maxToasts (_config s))%Z ->
  (Z.of_nat (length (_notifications s)) <= maxToasts (_config s))%Z ->
  consistent (show_call c s) /\
  _config (show_call c s) = _config s /\
  _notifications (show_call c s) =
    take (Z.to_nat (maxToasts (_config s)))
         (notification_of (_config s) c :: _notifications s).
Proof.
  intros Hc Hni Hcap Hlen.
  unfold show_call, show.
  change (mkNotification (call_id c) _ _ _ _ _ _ _) with (notification_of (_config s) c).
  set (n := notification_of (_config s) c).
  set (l := _notifications s) in *.
  assert (timeoutMap s !! call_id c = None) as Hfresh.
  { apply (consistent_no_timer s (call_id c) Hc Hni). }
  assert (exists s1,
            (if (maxToasts (_config s) <? Z.of_nat (length (n :: l)))%Z
             then match pop (n :: l) with
                  | (Some removed, rest) =>
                      set_notifications rest (clearTimeout (id removed) s)
                  | (None, rest) => set_notifications rest s
                  end
             else set_notifications (n :: l) s) = s1 /\
            consistent s1 /\ _config s1 = _config s /\
            _notifications s1 = take (Z.to_nat (maxToasts (_config s))) (n :: l) /\
            call_id c ∈ ids s1 /\ timeoutMap s1 !! call_id c = None)
    as (s1 & -> & Hc1 & Hcfg1 & Hl1 & Hin1 & Hnone1).
  { destruct (maxToasts (_config s) <? Z.of_nat (length (n :: l)))%Z eqn:Hover.
    - apply Z.ltb_lt in Hover. simpl in Hover.
      destruct (exists_last (l := n :: l) ltac:(discriminate)) as (rest & removed & Heq).
      assert (length rest = Z.to_nat (maxToasts (_config s))) as Hrest.
      { apply (f_equal (@length _)) in Heq. rewrite length_app in Heq.
        simpl in Heq. lia. }
      unfold pop. rewrite Heq, last_snoc, removelast_last.
      eexists. split; [reflexivity|].
      assert (exists rest', rest = n :: rest') as [rest' Hhead].
      { destruct rest as [|r0 rest']; [simpl in Hrest; lia|].
        exists rest'. simpl in Heq. congruence. }
      split; [|split; [|split; [|split]]].
      + apply consistent_evict; try apply Hc.
        * intros i h H. rewrite <- Heq. simpl. right.
          exact (map_displayed s Hc i h H).
        * rewrite <- Heq. simpl. apply NoDup_cons. split; [exact Hni|apply Hc].
      + simpl. apply clearTimeout_config.
      + simpl. rewrite <- Hrest. by rewrite take_app_length.
      + unfold ids. simpl. rewrite Hhead. left.
      + simpl. rewrite clearTimeout_timeoutMap.
        apply lookup_delete_None. by right.
    - apply Z.ltb_ge in Hover.
      eexists. split; [reflexivity|].
      split; [|split; [|split; [|split]]].
      + by apply consistent_prepend.
      + reflexivity.
      + simpl. symmetry. apply take_ge. simpl in *. lia.
      + unfold ids. simpl. left.
      + exact Hfresh. }
  destruct (positive_duration (duration n)); simpl.
  - split; [by apply consistent_scheduleRemoval|]. split; [exact Hcfg1|exact Hl1].
  - split; [exact Hc1|]. split; [exact Hcfg1|exact Hl1].
Qed.

Lemma show_all_snoc (cs : list ShowCall) (c : ShowCall) (s : State) :
  show_all (cs ++ [c]) s = show_call c (show_all cs s).
Proof. unfold show_all. by rewrite fold_left_app. Qed.

Lemma take_cons_take {A : Type} (k : nat) (x : A) (l : list A) :
  take k (x :: take k l) = take k (x :: l).
Proof.
  destruct k as [|k]; [reflexivity|]. simpl. f_equal.
  rewrite take_take. f_equal. lia.
Qed.

(** Any run of [show] calls with fresh ids, on a service with capacity
    [N >= 1] that starts consistent and empty: the [N] most recent records
    are displayed, newest first, and the bookkeeping stays tight. *)
Lemma show_all_window (N : nat) (cs : list ShowCall) (s0 : State) :
  (1 <= N)%nat ->
  consistent s0 -> _notifications s0 = [] ->
  maxToasts (_config s0) = Z.of_nat N ->
  NoDup (map call_id cs) ->
  consistent (show_all cs s0) /\
  _config (show_all cs s0) = _config s0 /\
  _notifications (show_all cs s0) =
    take N (rev (map (notification_of (_config s0)) cs)).
Proof.
  intros HN Hc0 Hempty Hmax.
  induction cs as [|c cs IH] using rev_ind; intros Hnd.
  - simpl. rewrite Hempty. by destruct N.
  - rewrite map_app in Hnd. apply NoDup_app in Hnd as (Hnd & Hdisj & _).
    destruct (IH Hnd) as (Hc & Hcfg & Hl).
    rewrite show_all_snoc.
    destruct (show_step (show_all cs s0) c Hc) as (Hc' & Hcfg' & Hl').
    + unfold ids. rewrite Hl. intros Hin.
      apply list_elem_of_fmap in Hin as (n & Hid & Hin).
      apply elem_of_take in Hin as (k & Hin & _).
      apply list_elem_of_lookup_2, list_elem_of_In, in_rev, in_map_iff in Hin
        as (c' & <- & Hin).
      apply (Hdisj (call_id c')).
      * apply list_elem_of_fmap. exists c'. split; [reflexivity|].
        by apply list_elem_of_In.
      * simpl. rewrite Hid. left.
    + rewrite Hcfg, Hmax. lia.
    + rewrite Hcfg, Hmax, Hl. rewrite length_take. lia.
    + split; [exact Hc'|]. split; [congruence|].
      rewrite Hl', Hcfg, Hmax, Nat2Z.id, Hl.
      rewrite map_app, rev_app_distr. simpl. apply take_cons_take.
Qed.

Lemma consistent_initial (c : ToastConfig) :
  consistent (set_config c initialState).
Proof.
  split; simpl.
  - apply NoDup_nil_2.
  - intros i h H. by rewrite lookup_empty in H.
  - intros h t H. by rewrite lookup_empty in H.
  - intros h t H. by rewrite lookup_empty in H.
Qed.

(** The capacity property for every capacity [N >= 1]: after [N + 1]
    calls with fresh ids on a new service, the [N] records of the later
    calls are displayed, newest first; the record of the first call is
    gone and no timer is left for it. *)
Lemma show_overflow_evicts_oldest (N : nat) (c0 : ShowCall) (cs : list ShowCall) :
  (1 <= N)%nat ->
  length cs = N ->
  NoDup (map call_id (c0 :: cs)) ->
  let s0 := configure None (Some (Z.of_nat N)) None None initialState in
  let s := show_all (c0 :: cs) s0 in
  _notifications s = rev (map (notification_of (_config s0)) cs) /\
  length (_notifications s) = N /\
  (call_id c0 ∉ ids s) /\
  no_timer_for (call_id c0) s.
Proof.
  intros HN Hlen Hnd s0 s.
  destruct (show_all_window N (c0 :: cs) s0 HN) as (Hc & _ & Hl);
    [apply consistent_initial | reflexivity | reflexivity | exact Hnd |].
  fold s in Hc. fold s in Hl.
  assert (_notifications s = rev (map (notification_of (_config s0)) cs)) as Hl'.
  { rewrite Hl. simpl.
    rewrite <- (length_map (notification_of (_config s0))), <- length_rev in Hlen.
    rewrite <- Hlen at 1. apply take_app_length. }
  assert (call_id c0 ∉ ids s) as Hgone.
  { unfold ids. rewrite Hl'. intros Hin.
    apply list_elem_of_fmap in Hin as (n & Hid & Hin).
    apply list_elem_of_In, in_rev, in_map_iff in Hin as (c' & <- & Hin).
    simpl in Hnd. apply NoDup_cons in Hnd as [Hni _]. apply Hni.
    rewrite Hid. apply list_elem_of_fmap. exists c'. split; [reflexivity|].
    by apply list_elem_of_In. }
  split; [exact Hl'|]. split; [|split; [exact Hgone|]].
  - rewrite Hl', length_rev, length_map. exact Hlen.
  - by apply consistent_no_timer.
Qed.

End ToastCapacity.

Section ToastCapacityInstances.
Import Toast ToastSamples.

(** C5 (evaluation of the service where the claim fails): with capacity
    0, one [show] call leaves no record, as the claim says, but the
    record's removal timer is set after the eviction, so a timer for the
    evicted record is pending and the timeout map holds its handle. *)
Theorem show_zero_capacity_keeps_timer :
  let s := fst (show "toast_1" 0 TInfo "Saved" None zeroCapacity) in
  maxToasts (_config zeroCapacity) = 0%Z /\
  _notifications s = [] /\
  timeoutMap s !! "toast_1"%string = Some 1%positive /\
  pendingTimers s !! 1%positive =
    Some {| timer_id := "toast_1"; delay := 5000%float |} /\
  timerCalls s = [CallSetTimeout 1 "toast_1" 5000%float] /\
  ~ no_timer_for "toast_1" s.
Proof.
  repeat split. intros [H _]. discriminate H.
Qed.

(** Capacity 1, two calls: the first record is evicted with its timer. *)
Example show_capacity_one :
  let s0 := configure None (Some 1%Z) None None initialState in
  let s := show_all [mkShowCall "toast_1" 0 TInfo "first" None;
                     mkShowCall "toast_2" 1 TInfo "second" None] s0 in
  map id (_notifications s) = ["toast_2"%string] /\
  timeoutMap s !! "toast_1"%string = None /\
  timeoutMap s !! "toast_2"%string = Some 2%positive /\
  pendingTimers s !! 1%positive = None /\
  timerCalls s = [CallSetTimeout 1 "toast_1" 5000%float;
                  CallClearTimeout 1;
                  CallSetTimeout 2 "toast_2" 5000%float].
Proof. repeat split. Qed.

End ToastCapacityInstances.

(** ** The error log buffer *)

Section ErrorLogBuffer.
Import ErrorLog.

Variable navigator : option string.

Lemma log_errorBuffer (e : AppError) (md : option (list (string * string)))
    (s : State) :
  errorBuffer (fst (log navigator e md s)) =
  addToBuffer (createLogEntry navigator e md) (errorBuffer s).
Proof.
  unfold log.
  by destruct (run_hooks (hooks s) e (createLogEntry navigator e md) (warnings s)).
Qed.

Lemma log_all_snoc (es : list (AppError * option (list (string * string))))
    (em : AppError * option (list (string * string))) (s : State) :
  log_all navigator (es ++ [em]) s =
  fst (log navigator (fst em) (snd em) (log_all navigator es s)).
Proof. unfold log_all. by rewrite fold_left_app. Qed.

(** One push on a buffer within capacity: the window slides by one when
    the buffer is full. *)
Lemma addToBuffer_window (entry : ErrorLogEntry) (buf : list ErrorLogEntry) :
  (length buf <= maxBufferSize)%nat ->
  addToBuffer entry buf = drop (length buf + 1 - maxBufferSize) (buf ++ [entry]).
Proof.
  intros Hlen. unfold addToBuffer, shift.
  rewrite length_app. simpl length.
  destruct (maxBufferSize <? length buf + 1)%nat eqn:Hfull.
  - apply Nat.ltb_lt in Hfull.
    replace (length buf + 1 - maxBufferSize)%nat with 1%nat by lia.
    simpl. by destruct (buf ++ [entry]).
  - apply Nat.ltb_ge in Hfull.
    by replace (length buf + 1 - maxBufferSize)%nat with 0%nat by lia.
Qed.

(** A full buffer loses its first entry and gains the new one at the end;
    a buffer with room only gains. *)
Lemma addToBuffer_full (entry : ErrorLogEntry) (buf : list ErrorLogEntry) :
  length buf = maxBufferSize ->
  addToBuffer entry buf = tail buf ++ [entry].
Proof.
  intros Hlen. rewrite addToBuffer_window by lia.
  replace (length buf + 1 - maxBufferSize)%nat with 1%nat by lia.
  destruct buf; [discriminate Hlen | reflexivity].
Qed.

Lemma addToBuffer_room (entry : ErrorLogEntry) (buf : list ErrorLogEntry) :
  (length buf < maxBufferSize)%nat ->
  addToBuffer entry buf = buf ++ [entry].
Proof.
  intros Hlen. rewrite addToBuffer_window by lia.
  by replace (length buf + 1 - maxBufferSize)%nat with 0%nat by lia.
Qed.

Lemma log_all_window (es : list (AppError * option (list (string * string))))
    (s : State) :
  (length (errorBuffer s) <= maxBufferSize)%nat ->
  errorBuffer (log_all navigator es s) =
  drop (length (errorBuffer s) + length es - maxBufferSize)
       (errorBuffer s ++ map (entry_of navigator) es).
Proof.
  intros Hlen. induction es as [|em es IH] using rev_ind.
  - simpl. rewrite app_nil_r.
    by replace (length (errorBuffer s) + 0 - maxBufferSize)%nat with 0%nat by lia.
  - rewrite log_all_snoc, log_errorBuffer, IH.
    set (B := errorBuffer s) in *. set (E := map (entry_of navigator) es).
    assert (length E = length es) as HE by apply length_map.
    rewrite addToBuffer_window; rewrite length_drop, length_app, HE; [|lia].
    rewrite map_app, length_app. simpl. fold E.
    rewrite (app_assoc B E).
    rewrite <- (drop_app_le (B ++ E)) by (rewrite length_app; lia).
    rewrite drop_drop. f_equal. lia.
Qed.

(** C8: after any sequence of [log] calls on a new service the buffer
    holds the last 100 entries of the sequence in call order, never more
    than 100: each call beyond the hundredth has dropped exactly the one
    oldest entry. *)
Theorem errorBuffer_bounded_fifo (hs : list ErrorLoggingHook)
    (es : list (AppError * option (list (string * string)))) :
  let s := log_all navigator es (newService hs) in
  errorBuffer s = drop (length es - 100) (map (entry_of navigator) es) /\
  length (errorBuffer s) = Nat.min (length es) 100 /\
  (length (errorBuffer s) <= 100)%nat /\
  forall e md,
    errorBuffer (fst (log navigator e md s)) =
    drop (length es + 1 - 100) (map (entry_of navigator) es ++ [createLogEntry navigator e md]).
Proof.
  simpl.
  assert (forall es', errorBuffer (log_all navigator es' (newService hs)) =
                      drop (length es' - 100) (map (entry_of navigator) es')) as Hw.
  { intros es'. rewrite log_all_window by (simpl; unfold maxBufferSize; lia).
    reflexivity. }
  assert (length (errorBuffer (log_all navigator es (newService hs)))
          = Nat.min (length es) 100) as Hlen.
  { rewrite Hw, length_drop, length_map. lia. }
  split; [apply Hw|]. split; [exact Hlen|]. split; [lia|].
  intros e md.
  pose proof (Hw (es ++ [(e, md)])) as H.
  rewrite log_all_snoc, length_app, map_app in H. exact H.
Qed.

End ErrorLogBuffer.

(** ** The users store: selectors and effects *)

Section UsersSelectors.
Import Users.

Lemma find_filter_other (uid other : string) (l : list User) :
  other <> uid ->
  List.find (fun u => String.eqb (id u) other)
    (List.filter (fun u => negb (String.eqb (id u) uid)) l) =
  List.find (fun u => String.eqb (id u) other) l.
Proof.
  intros Hne. induction l as [|u l IH]; simpl; [reflexivity|].
  destruct (String.eqb (id u) uid) eqn:E; simpl.
  - apply String.eqb_eq in E.
    destruct (String.eqb (id u) other) eqn:E'; [|exact IH].
    apply String.eqb_eq in E'. congruence.
  - destruct (String.eqb (id u) other); [reflexivity|exact IH].
Qed.

Lemma find_filter_same (uid : string) (l : list User) :
  List.find (fun u => String.eqb (id u) uid)
    (List.filter (fun u => negb (String.eqb (id u) uid)) l) = None.
Proof.
  induction l as [|u l IH]; simpl; [reflexivity|].
  destruct (String.eqb (id u) uid) eqn:E; simpl; [exact IH|].
  rewrite E. exact IH.
Qed.

(** X1: after [deleteUserSuccess] for an id, no selector finds a user
    with that id any more (by id or as the selected user), the selection
    no longer points at it, and looking up any other id gives what it gave
    before. *)
Theorem deleteUserSuccess_selectors (s : UsersState) (uid : string) :
  let s' := usersReducer s (deleteUserSuccess uid) in
  selectUserById uid s' = None /\
  selectSelectedUserId s' <> Some uid /\
  (forall u, selectSelectedUser s' = Some u -> id u <> uid) /\
  (forall other, other <> uid -> selectUserById other s' = selectUserById other s).
Proof.
  simpl. unfold selectUserById, selectSelectedUser, selectSelectedUserId,
    selectAllUsers. simpl.
  split; [apply find_filter_same|].
  assert (match selectedUserId s with
          | Some sel => if String.eqb sel uid then None else Some sel
          | None => None
          end <> Some uid) as Hsel.
  { destruct (selectedUserId s) as [sel|]; [|discriminate].
    destruct (String.eqb sel uid) eqn:E; [discriminate|].
    apply String.eqb_neq in E. congruence. }
  split; [exact Hsel|]. split.
  - intros u Hu.
    destruct (selectedUserId s) as [sel|]; [|discriminate].
    destruct (String.eqb sel uid) eqn:E; [discriminate|].
    apply find_some in Hu as [_ Hid]. apply String.eqb_eq in Hid.
    apply String.eqb_neq in E. congruence.
  - intros other Hne. by apply find_filter_other.
Qed.

Lemma map_id_update (u : User) (l : list User) :
  map id (map (fun u' => if String.eqb (id u') (id u) then u else u') l) = map id l.
Proof.
  induction l as [|x l IH]; simpl; [reflexivity|]. rewrite IH. f_equal.
  destruct (String.eqb (id x) (id u)) eqn:E; [|reflexivity].
  apply String.eqb_eq in E. congruence.
Qed.

Lemma find_update (u : User) (l : list User) :
  List.find (fun x => String.eqb (id x) (id u))
    (map (fun u' => if String.eqb (id u') (id u) then u else u') l) =
  if existsb (fun x => String.eqb (id x) (id u)) l then Some u else None.
Proof.
  induction l as [|x l IH]; simpl; [reflexivity|].
  destruct (String.eqb (id x) (id u)) eqn:E; simpl.
  - by rewrite String.eqb_refl.
  - rewrite E. exact IH.
Qed.

(** X2: [updateUserSuccess] keeps the ids of the list as they are, in
    order (so it neither adds nor removes a record); afterwards the lookup
    of the updated id gives the new record if the id was in the list and
    nothing if it was not. *)
Theorem updateUserSuccess_lookup (s : UsersState) (u : User) :
  let s' := usersReducer s (updateUserSuccess u) in
  map id (users s') = map id (users s) /\
  selectUsersCount s' = selectUsersCount s /\
  selectUserById (id u) s' = (if hasUser (id u) s then Some u else None).
Proof.
  simpl. unfold selectUsersCount, selectUserById, selectAllUsers, hasUser. simpl.
  split; [apply map_id_update|]. split; [by rewrite length_map|apply find_update].
Qed.

Lemma find_snoc (f : User -> bool) (l : list User) (u : User) :
  List.find f (l ++ [u]) =
  match List.find f l with
  | Some old => Some old
  | None => if f u then Some u else None
  end.
Proof.
  induction l as [|x l IH]; simpl; [reflexivity|].
  destruct (f x); [reflexivity|exact IH].
Qed.

(** X3: [addUserSuccess] appends without looking at the ids: the count
    grows by one in every case, and if a record with the same id is
    already in the list, the lookup by that id still returns the old
    record, not the one just added. *)
Theorem addUserSuccess_lookup (s : UsersState) (u : User) :
  let s' := usersReducer s (addUserSuccess u) in
  selectUsersCount s' = S (selectUsersCount s) /\
  selectUserById (id u) s' =
    match selectUserById (id u) s with
    | Some old => Some old
    | None => Some u
    end.
Proof.
  simpl. unfold selectUsersCount, selectUserById, selectAllUsers. simpl.
  split.
  - rewrite length_app. simpl. lia.
  - rewrite find_snoc. by rewrite String.eqb_refl.
Qed.

(** X4: every action that starts a request is answered by exactly one
    action of the effects, and once that answer has gone through the
    reducer the loading flag is down again; the error is the message of
    the failure, or null after a success. *)
Theorem request_settles (api : UsersApi) (s : UsersState) (a : UsersAction) :
  startsRequest a = true ->
  exists answer,
    usersEffects api a = [answer] /\
    startsRequest answer = false /\
    dispatchAll api s a = usersReducer (usersReducer s a) answer /\
    isLoading (dispatchAll api s a) = false /\
    error (dispatchAll api s a) = failureMessage answer.
Proof.
  intros Hreq. unfold dispatchAll.
  destruct a; try discriminate Hreq; unfold usersEffects; simpl.
  - destruct (api_getUsers api); eexists; repeat split.
  - destruct (api_addUser api user); eexists; repeat split.
  - destruct (api_updateUser api user); eexists; repeat split.
  - destruct (api_deleteUser api userId); eexists; repeat split.
Qed.

End UsersSelectors.

Section UsersSelectorsInstances.
Import Users UsersSamples.

Lemma request_settles_witness :
  isLoading (dispatchAll stub_api loadedState (deleteUser "1")) = false /\
  error (dispatchAll stub_api loadedState (deleteUser "1")) = None.
Proof.
  destruct (request_settles stub_api loadedState (deleteUser "1") eq_refl)
    as (answer & Heff & _ & _ & Hload & Herr).
  split; [exact Hload|]. rewrite Herr.
  injection Heff as <-. reflexivity.
Defined.

End UsersSelectorsInstances.

(** ** buildUrl applied twice *)

Section BuildUrlTwice.
Import Api.

Lemma prefix_app (p s t : string) :
  String.prefix p s = true -> String.prefix p (s ++ t) = true.
Proof.
  revert s. induction p as [|c p IH]; intros s H.
  - by destruct (s ++ t)%string.
  - destruct s as [|d s]; [discriminate H|].
    change (String d s ++ t)%string with (String d (s ++ t)).
    cbn -[Ascii.ascii_dec] in *.
    destruct (Ascii.ascii_dec c d); [by apply IH | discriminate H].
Qed.

Lemma isFullUrl_app (s t : string) :
  isFullUrl s = true -> isFullUrl (s ++ t) = true.
Proof.
  unfold isFullUrl, startsWith. intros H.
  apply orb_true_iff in H as [H|H]; apply orb_true_iff; [left|right];
    by apply prefix_app.
Qed.

(** X5: when the configured base is itself an [http://] or [https://]
    URL, whatever [buildUrl] returns is a full URL, so passing a built
    URL through [buildUrl] again leaves it as it is: the base is never
    prefixed twice. *)
Theorem buildUrl_twice (baseUrl p : string) :
  isFullUrl baseUrl = true ->
  isFullUrl (buildUrl baseUrl p) = true /\
  buildUrl baseUrl (buildUrl baseUrl p) = buildUrl baseUrl p.
Proof.
  intros Hbase.
  assert (isFullUrl (buildUrl baseUrl p) = true) as Hfull.
  { unfold buildUrl. destruct (isFullUrl p) eqn:E; [exact E|].
    by apply isFullUrl_app. }
  split; [exact Hfull|]. unfold buildUrl at 1. by rewrite Hfull.
Qed.

Lemma buildUrl_twice_witness :
  buildUrl "http://localhost:3000/api"
    (buildUrl "http://localhost:3000/api" "users")
  = "http://localhost:3000/api/users"%string.
Proof.
  destruct (buildUrl_twice "http://localhost:3000/api" "users" eq_refl) as [_ H].
  rewrite H. reflexivity.
Defined.

End BuildUrlTwice.

(** ** More on the identity service *)

Section KeycloakMore.
Import Keycloak.

Variable origin : string.

(** X6: on an empty list of roles [hasAllRoles] is true and [hasAnyRole]
    is false, for every session; on a list that is not empty, having all
    the roles implies having one of them. *)
Theorem hasAllRoles_hasAnyRole (required : list string) (s : State) :
  hasAllRoles [] s = true /\
  hasAnyRole [] s = false /\
  (required <> [] ->
   hasAllRoles required s = true -> hasAnyRole required s = true).
Proof.
  split; [reflexivity|]. split; [reflexivity|]. intros Hne Hall.
  destruct required as [|r rs]; [congruence|].
  unfold hasAllRoles, hasAnyRole in *. simpl in *.
  apply andb_true_iff in Hall as [Hr _]. by rewrite Hr.
Qed.

Lemma updateToken_resolves (minValidity : Z) (s : State) :
  exists b, snd (updateToken origin minValidity s) = Resolved b.
Proof.
  unfold updateToken. destruct (keycloakInstance s) as [kc|] eqn:Hkc; [|eauto].
  destruct (on_updateToken kc minValidity) as [[]|]; simpl; eauto.
  unfold logout. simpl. rewrite Hkc. eauto.
Qed.

(** The number of forced logouts in a log of effects. *)
Lemma updateToken_effects (minValidity : Z) (s : State) :
  exists added,
    effects (fst (updateToken origin minValidity s)) = effects s ++ added /\
    (length (List.filter (fun e => match e with ProviderLogout _ => true | _ => false end)
                         added) <= 1)%nat /\
    (length (List.filter (fun e => match e with ProviderUpdateToken _ => true | _ => false end)
                         added) <= 1)%nat.
Proof.
  unfold updateToken. destruct (keycloakInstance s) as [kc|] eqn:Hkc.
  - destruct (on_updateToken kc minValidity) as [[]|].
    + eexists. split; [simpl; by rewrite <- app_assoc|]. simpl. lia.
    + eexists. split; [reflexivity|]. simpl. lia.
    + unfold logout. simpl. rewrite Hkc. simpl.
      eexists. split; [by rewrite <- !app_assoc|]. simpl. lia.
  - exists []. split; [by rewrite app_nil_r|]. simpl. lia.
Qed.

(** X7: [updateToken] never rejects, so the [catch] handlers attached to
    it by the refresh interval and by [onTokenExpired] never run: a tick
    of the interval is one [updateToken(70)], a token expiry is the
    console warning followed by one [updateToken(30)], and neither asks
    the provider for more than one refresh and one logout. *)
Theorem refresh_triggers_single_attempt (s : State) :
  refreshTick origin s = fst (updateToken origin 70 s) /\
  onTokenExpired origin s =
    fst (updateToken origin 30 (emit (ConsoleWarn "Token expired, refreshing...") s)) /\
  forall s', s' = refreshTick origin s \/ s' = onTokenExpired origin s ->
    exists added,
      effects s' = effects s ++ added /\
      (length (List.filter
                 (fun e => match e with ProviderLogout _ => true | _ => false end)
                 added) <= 1)%nat /\
      (length (List.filter
                 (fun e => match e with ProviderUpdateToken _ => true | _ => false end)
                 added) <= 1)%nat.
Proof.
  assert (refreshTick origin s = fst (updateToken origin 70 s)) as Htick.
  { unfold refreshTick. destruct (updateToken_resolves 70 s) as [b Hb].
    destruct (updateToken origin 70 s) as [s1 r]. simpl in *. by rewrite Hb. }
  assert (onTokenExpired origin s =
          fst (updateToken origin 30
                 (emit (ConsoleWarn "Token expired, refreshing...") s))) as Hexp.
  { unfold onTokenExpired.
    destruct (updateToken_resolves 30
                (emit (ConsoleWarn "Token expired, refreshing...") s)) as [b Hb].
    destruct (updateToken origin 30 _) as [s1 r]. simpl in *. by rewrite Hb. }
  split; [exact Htick|]. split; [exact Hexp|].
  intros s' [-> | ->].
  - rewrite Htick. apply updateToken_effects.
  - rewrite Hexp.
    destruct (updateToken_effects 30
                (emit (ConsoleWarn "Token expired, refreshing...") s))
      as (added & Heq & Hlo & Hup).
    exists (ConsoleWarn "Token expired, refreshing..." :: added).
    split; [rewrite Heq; simpl; by rewrite <- app_assoc|]. simpl. split; lia.
Qed.

(** X8: when the provider's handshake answers, [init] resolves to that
    answer and publishes it; the profile is requested and the refresh
    interval registered exactly when the answer is true.  The profile's
    answer is not waited for: what [init] has done when it resolves is the
    handshake and, on true, the profile request followed by the
    registering of the interval, and the published user is the one from
    before. *)
Theorem init_handshake (construct : Instance) (s : State) (b : bool) :
  on_init construct = Resolved b ->
  let r := init origin (Normal construct) s in
  snd r = Resolved b /\
  isAuthenticatedSubject (fst r) = b /\
  keycloakInstance (fst r) = Some construct /\
  (exists added,
    effects (fst r) = effects s ++ added /\
    (In (SetInterval 60000) added <-> b = true) /\
    (In ProviderLoadUserProfile added <-> b = true)) /\
  effects (fst r) =
    effects s ++
    ProviderInit (origin ++ "/assets/silent-check-sso.html")%string ::
    (if b then [ProviderLoadUserProfile; SetInterval 60000] else []) /\
  userSubject (fst r) = userSubject s.
Proof.
  intros Hinit. unfold init. rewrite Hinit. simpl.
  destruct b; simpl.
  - unfold loadUserProfile_request, setupTokenRefresh. simpl.
    rewrite <- !app_assoc. simpl.
    repeat split; try (eexists; split; [reflexivity|]);
      simpl; split; split; auto; intros _; auto 10.
  - repeat split. eexists. split; [reflexivity|]. simpl.
    split; split; try discriminate; intros [H|[]]; discriminate H.
Qed.

End KeycloakMore.

Section KeycloakMoreInstances.
Import Keycloak AuthSamples.

Lemma hasAllRoles_hasAnyRole_witness :
  hasAllRoles [] (sessionWithRoles ["B"; "A"]) = true /\
  hasAnyRole [] (sessionWithRoles ["B"; "A"]) = false /\
  hasAnyRole ["A"; "B"] (sessionWithRoles ["B"; "A"]) = true.
Proof.
  destruct (hasAllRoles_hasAnyRole ["A"; "B"]%string (sessionWithRoles ["B"; "A"]))
    as (Hall & Hany & Himp).
  split; [exact Hall|]. split; [exact Hany|].
  apply Himp; [discriminate | reflexivity].
Defined.

Lemma init_handshake_witness :
  let kc := {| authenticated := Some true; token := None; refreshToken := None;
               tokenParsed := None; on_init := Resolved true;
               on_login := Resolved tt; on_logout := Resolved tt;
               on_updateToken := fun _ => Resolved false;
               on_loadUserProfile := Rejected "offline" |} in
  snd (init appOrigin (Normal kc) initialState) = Resolved true /\
  isAuthenticatedSubject (fst (init appOrigin (Normal kc) initialState)) = true /\
  effects (fst (init appOrigin (Normal kc) initialState)) =
    [ProviderInit "http://localhost:4200/assets/silent-check-sso.html";
     ProviderLoadUserProfile; SetInterval 60000] /\
  userSubject (fst (init appOrigin (Normal kc) initialState)) = None.
Proof.
  intros kc.
  destruct (init_handshake appOrigin kc initialState true eq_refl)
    as (Hr & Ha & _ & _ & He & Hu).
  exact (conj Hr (conj Ha (conj He Hu))).
Defined.

(** The profile answers after [init] has returned: only then is the user
    published, or the failure reported. *)
Example init_then_profile :
  let s := fst (init appOrigin (Normal adaProvider) initialState) in
  let s' := loadUserProfile_settle (on_loadUserProfile adaProvider) s in
  userSubject s = None /\
  effects s' = effects s /\
  (user_name <$> userSubject s') = Some "Ada"%string /\
  (user_realm_access <$> userSubject s') = Some (Some ["admin"%string]).
Proof. repeat split; reflexivity. Qed.

(** [trim] strips a no-break space (C2 A0) and a line separator
    (E2 80 A8) as it strips blanks, and keeps what is inside. *)
Example trim_unicode :
  trim (String "194" (String "160" " Ada  Lovelace ") ++
        String "226" (String "128" (String "168" EmptyString)))
  = "Ada  Lovelace"%string.
Proof. reflexivity. Qed.

(** A profile without first and last name gives the empty name. *)
Example trim_blank : trim " " = EmptyString.
Proof. reflexivity. Qed.

End KeycloakMoreInstances.

(** ** The guards *)

Section GuardsProperties.
Import Keycloak Guards.

(** X9: [authGuard] and [guestGuard] split the sessions between them:
    the first allows exactly the logged-in ones, the second exactly the
    others.  [authGuard] shows no toast when it allows, and sends to
    [/auth/login] when it does not; [guestGuard] sends a logged-in user to
    [/dashboard]. *)
Theorem authGuard_guestGuard (newId : string) (now : Z) (w : World) :
  (snd (authGuard newId now w) = Allow <-> isLoggedIn (auth w) = true) /\
  (guestGuard (auth w) = Allow <-> isLoggedIn (auth w) = false) /\
  (snd (authGuard newId now w) = Allow <-> guestGuard (auth w) <> Allow) /\
  auth (fst (authGuard newId now w)) = auth w /\
  snd (authGuard newId now w) =
    (if isLoggedIn (auth w) then Allow else RedirectTo ["/auth/login"%string]) /\
  toasts (fst (authGuard newId now w)) =
    (if isLoggedIn (auth w) then toasts w
     else fst (Toast.show newId now Toast.TWarning
                 "Please log in to access this page"
                 (Some (titled "Authentication Required")) (toasts w))).
Proof.
  unfold authGuard, guestGuard. simpl.
  destruct (isLoggedIn (auth w)); simpl;
    repeat split; try discriminate; try congruence; intros H; by elim H.
Qed.

(** X10: [authGuardWithRoles(required)] allows exactly the logged-in
    sessions that hold at least one of the required realm roles; with an
    empty list it allows nobody.  It never changes the session. *)
Theorem authGuardWithRoles_allows (required : list string)
    (newId : string) (now : Z) (w : World) :
  (snd (authGuardWithRoles required newId now w) = Allow <->
   isLoggedIn (auth w) = true /\
   exists role, role ∈ required /\ role ∈ getUserRoles (auth w)) /\
  snd (authGuardWithRoles [] newId now w) <> Allow /\
  auth (fst (authGuardWithRoles required newId now w)) = auth w.
Proof.
  split; [|split].
  - rewrite <- hasAnyRole_spec. unfold authGuardWithRoles.
    destruct (isLoggedIn (auth w)); simpl.
    + destruct (hasAnyRole required (auth w)); simpl; split;
        try discriminate; try tauto; intros [_ H]; discriminate H.
    + split; [discriminate | intros [H _]; discriminate H].
  - unfold authGuardWithRoles. by destruct (isLoggedIn (auth w)).
  - unfold authGuardWithRoles.
    destruct (isLoggedIn (auth w)); simpl; [|reflexivity].
    by destruct (hasAnyRole required (auth w)).
Qed.

(** X11: for a logged-in session and a list of roles that is not empty,
    [authGuardWithRoles] and the role guard under ANY semantics take the
    same decision. *)
Theorem authGuardWithRoles_roleGuard (origin : string) (required : list string)
    (url newId : string) (now : Z) (w : World) :
  isLoggedIn (auth w) = true ->
  required <> [] ->
  (snd (authGuardWithRoles required newId now w) = Allow <->
   snd (RoleGuard.roleGuard origin
          {| RoleGuard.roles := Some required;
             RoleGuard.requireAll := RoleGuard.JsUndefined |} url (auth w))
   = Normal true).
Proof.
  intros Hin Hne.
  rewrite (roleGuard_decision origin
             {| RoleGuard.roles := Some required;
                RoleGuard.requireAll := RoleGuard.JsUndefined |}
             url (auth w) required Hin eq_refl Hne).
  simpl. unfold authGuardWithRoles. rewrite Hin. simpl.
  destruct (hasAnyRole required (auth w)); simpl; split;
    try discriminate; try reflexivity; intros [= H].
Qed.

Lemma login_return_url (origin url : string) :
  or_default (Some (origin ++ url)%string) origin = (origin ++ url)%string.
Proof. destruct origin; [by destruct url|reflexivity]. Qed.

(** X12: a visitor who is not logged in gets the same treatment from the
    role guard, whatever the route requires, as from the login-redirecting
    [authGuard]: with an instance, one login request to the provider that
    returns to the attempted url, and the answer false; without an
    instance, the guard throws instead of answering. *)
Theorem roleGuard_unauthenticated (origin : string) (data : RoleGuard.RouteData)
    (url : string) (s : State) :
  isLoggedIn s = false ->
  RoleGuard.roleGuard origin data url s = authGuard_login origin url s /\
  authGuard_login origin url s =
    match keycloakInstance s with
    | None => (s, Throw "Keycloak not initialized")
    | Some _ => (emit (ProviderLogin (origin ++ url)%string) s, Normal false)
    end.
Proof.
  intros Hout. unfold RoleGuard.roleGuard, authGuard_login. rewrite Hout. simpl.
  split; [reflexivity|]. unfold login. rewrite login_return_url.
  by destruct (keycloakInstance s).
Qed.

End GuardsProperties.

Section GuardsInstances.
Import Keycloak Guards AuthSamples.

Lemma authGuardWithRoles_roleGuard_witness :
  snd (authGuardWithRoles ["A"; "B"] "toast_1" 0
         {| auth := sessionWithRoles ["B"]; toasts := Toast.initialState;
            logged := [] |}) = Allow.
Proof.
  apply (authGuardWithRoles_roleGuard appOrigin ["A"; "B"]%string "/admin"
           "toast_1" 0
           {| auth := sessionWithRoles ["B"]; toasts := Toast.initialState;
              logged := [] |} eq_refl ltac:(discriminate)).
  reflexivity.
Defined.

Lemma roleGuard_unauthenticated_witness :
  snd (RoleGuard.roleGuard appOrigin (routeAll ["A"]) "/admin" initialState)
  = Throw "Keycloak not initialized".
Proof.
  destruct (roleGuard_unauthenticated appOrigin (routeAll ["A"]) "/admin"
              initialState eq_refl) as [H1 H2].
  rewrite H1, H2. reflexivity.
Defined.

End GuardsInstances.

(** ** The toast service: the timer bookkeeping as an invariant *)

Section ToastInvariant.
Import Toast.

Lemma ids_filter (i : string) (l : list Notification) :
  map id (List.filter (fun n => negb (String.eqb (id n) i)) l) =
  List.filter (fun j => negb (String.eqb j i)) (map id l).
Proof.
  induction l as [|n l IH]; simpl; [reflexivity|].
  destruct (negb (String.eqb (id n) i)); simpl; by rewrite IH.
Qed.

Lemma elem_of_filter_ne (i j : string) (l : list string) :
  j ∈ List.filter (fun k => negb (String.eqb k i)) l <-> j ∈ l /\ j <> i.
Proof.
  rewrite !list_elem_of_In, filter_In, negb_true_iff, String.eqb_neq. tauto.
Qed.

Lemma NoDup_filter_ne (i : string) (l : list string) :
  NoDup l -> NoDup (List.filter (fun k => negb (String.eqb k i)) l).
Proof.
  induction 1 as [|x l Hx Hnd IH]; simpl; [constructor|].
  destruct (negb (String.eqb x i)); [|exact IH].
  constructor; [|exact IH]. rewrite elem_of_filter_ne. tauto.
Qed.

Lemma ids_dismiss (i : string) (s : State) :
  ids (dismiss i s) = List.filter (fun j => negb (String.eqb j i)) (ids s).
Proof.
  unfold ids, dismiss. simpl. rewrite clearTimeout_notifications. apply ids_filter.
Qed.

Lemma consistent_clearTimeout (i : string) (s : State) :
  consistent s -> consistent (clearTimeout i s).
Proof.
  intros Hc. split.
  - unfold ids. rewrite clearTimeout_notifications. apply Hc.
  - intros j h. unfold ids. rewrite clearTimeout_notifications, clearTimeout_timeoutMap.
    intros H. apply lookup_delete_Some in H as [_ Hl].
    exact (map_displayed s Hc j h Hl).
  - intros h t H. apply clearTimeout_pending in H as [Hl Hne].
    rewrite clearTimeout_timeoutMap. apply lookup_delete_Some. split.
    + intros Heq. apply Hne. rewrite Heq. exact (pending_mapped s Hc h t Hl).
    + exact (pending_mapped s Hc h t Hl).
  - intros h t H. apply clearTimeout_pending in H as [Hl _].
    rewrite clearTimeout_nextHandle. exact (pending_older s Hc h t Hl).
Qed.

Lemma consistent_dismiss (i : string) (s : State) :
  consistent s -> consistent (dismiss i s).
Proof.
  intros Hc. pose proof (consistent_clearTimeout i s Hc) as Hc1. split.
  - rewrite ids_dismiss. apply NoDup_filter_ne, Hc.
  - intros j h H. rewrite ids_dismiss. apply elem_of_filter_ne.
    unfold dismiss in H. simpl in H. split.
    + pose proof (map_displayed _ Hc1 j h H) as Hin.
      unfold ids in Hin. by rewrite clearTimeout_notifications in Hin.
    + intros ->. by rewrite clearTimeout_lookup in H.
  - exact (pending_mapped _ Hc1).
  - exact (pending_older _ Hc1).
Qed.

Lemma clearTimeout_pending_kept (i : string) (s : State) (h : positive) (t : Timer) :
  pendingTimers s !! h = Some t -> timeoutMap s !! i <> Some h ->
  pendingTimers (clearTimeout i s) !! h = Some t.
Proof.
  intros Hl Hne. unfold clearTimeout.
  destruct (timeoutMap s !! i) as [h0|] eqn:E; simpl; [|exact Hl].
  apply lookup_delete_Some. split; [congruence|exact Hl].
Qed.

Lemma paired_clearTimeout (i : string) (s : State) :
  paired s -> paired (clearTimeout i s).
Proof.
  intros Hp j h. rewrite clearTimeout_timeoutMap. intros H.
  apply lookup_delete_Some in H as [Hne Hl].
  destruct (Hp j h Hl) as (t & Ht & Hid). exists t. split; [|exact Hid].
  apply clearTimeout_pending_kept; [exact Ht|].
  intros Hi. destruct (Hp i h Hi) as (t' & Ht' & Hid'). congruence.
Qed.

Lemma paired_scheduleRemoval (s : State) (i : string) (ms : float) :
  paired s ->
  (forall h t, pendingTimers s !! h = Some t -> (h < nextHandle s)%positive) ->
  paired (scheduleRemoval i ms s).
Proof.
  intros Hp Hold j h. unfold scheduleRemoval. simpl. intros H.
  apply lookup_insert_Some in H as [[<- <-]|[Hne Hl]].
  - eexists. split; [apply lookup_insert_eq|reflexivity].
  - destruct (Hp j h Hl) as (t & Ht & Hid). exists t. split; [|exact Hid].
    rewrite lookup_insert_ne; [exact Ht|].
    intros <-. pose proof (Hold _ _ Ht). lia.
Qed.

Lemma paired_show (s : State) (c : ShowCall) :
  consistent s -> paired s -> paired (show_call c s).
Proof.
  intros Hc Hp. unfold show_call, show.
  change (mkNotification (call_id c) _ _ _ _ _ _ _) with (notification_of (_config s) c).
  set (n := notification_of (_config s) c).
  assert (exists s1,
            (if (maxToasts (_config s) <? Z.of_nat (length (n :: _notifications s)))%Z
             then match pop (n :: _notifications s) with
                  | (Some removed, rest) =>
                      set_notifications rest (clearTimeout (id removed) s)
                  | (None, rest) => set_notifications rest s
                  end
             else set_notifications (n :: _notifications s) s) = s1 /\
            paired s1 /\
            forall h t, pendingTimers s1 !! h = Some t -> (h < nextHandle s1)%positive)
    as (s1 & -> & Hp1 & Hold1).
  { destruct (maxToasts (_config s) <? _)%Z.
    - destruct (pop (n :: _notifications s)) as [[removed|] rest];
        eexists; (split; [reflexivity|]).
      + split.
        * exact (paired_clearTimeout (id removed) s Hp).
        * exact (pending_older _ (consistent_clearTimeout (id removed) s Hc)).
      + split; [exact Hp | exact (pending_older s Hc)].
    - eexists. split; [reflexivity|]. split; [exact Hp | exact (pending_older s Hc)]. }
  destruct (positive_duration (duration n)); [|exact Hp1].
  by apply paired_scheduleRemoval.
Qed.

Lemma find_id_elem (i : string) (l : list Notification) (n : Notification) :
  List.find (fun n => String.eqb (id n) i) l = Some n -> i ∈ map id l.
Proof.
  intros H. apply find_some in H as [Hin Hid]. apply String.eqb_eq in Hid.
  subst i. apply list_elem_of_fmap. exists n. split; [reflexivity|].
  by apply list_elem_of_In.
Qed.

(** What an expiring timer does to each field, in a consistent state. *)
Lemma fire_fields (s : State) (h : positive) (t : Timer) :
  consistent s -> pendingTimers s !! h = Some t ->
  timeoutMap (fire h s) = delete (timer_id t) (timeoutMap s) /\
  pendingTimers (fire h s) = delete h (pendingTimers s) /\
  _notifications (fire h s) =
    List.filter (fun n => negb (String.eqb (id n) (timer_id t))) (_notifications s) /\
  nextHandle (fire h s) = nextHandle s /\
  _config (fire h s) = _config s.
Proof.
  intros Hc Ht. unfold fire. rewrite Ht.
  pose proof (pending_mapped s Hc h t Ht) as Hm.
  unfold dismiss, clearTimeout. simpl. rewrite Hm. simpl.
  repeat split. apply delete_delete_eq.
Qed.

Lemma consistent_fire (s : State) (h : positive) :
  consistent s -> consistent (fire h s).
Proof.
  intros Hc. unfold fire. destruct (pendingTimers s !! h) as [t|] eqn:Ht; [|exact Hc].
  apply consistent_dismiss. split; simpl.
  - apply Hc.
  - apply Hc.
  - intros h' t' H. apply lookup_delete_Some in H as [_ Hl].
    exact (pending_mapped s Hc h' t' Hl).
  - intros h' t' H. apply lookup_delete_Some in H as [_ Hl].
    exact (pending_older s Hc h' t' Hl).
Qed.

Lemma paired_fire (s : State) (h : positive) :
  consistent s -> paired s -> paired (fire h s).
Proof.
  intros Hc Hp. destruct (pendingTimers s !! h) as [t|] eqn:Ht.
  - destruct (fire_fields s h t Hc Ht) as (Hm & Hpe & _).
    intros j h'. rewrite Hm, Hpe. intros H.
    apply lookup_delete_Some in H as [Hne Hl].
    destruct (Hp j h' Hl) as (t' & Ht' & Hid). exists t'. split; [|exact Hid].
    apply lookup_delete_Some. split; [|exact Ht'].
    intros <-. congruence.
  - unfold fire. by rewrite Ht.
Qed.

Lemma length_filter_le {A : Type} (f : A -> bool) (l : list A) :
  (length (List.filter f l) <= length l)%nat.
Proof.
  induction l as [|x l IH]; simpl; [lia|]. destruct (f x); simpl; lia.
Qed.

(** X13: in every state a service with capacity [N >= 1] can reach
    through [show], [dismiss], [pause], [resume] after [pause] and expiring
    timers, at most [N] toasts are displayed, their ids are distinct, and
    timers and toasts correspond: each entry of the timeout map belongs to
    a displayed toast and holds the handle of a pending timer for it, and
    each pending timer is the one the map holds for its toast. *)
Theorem reachable_invariant (N : nat) (s : State) :
  (1 <= N)%nat ->
  reachable N s ->
  consistent s /\ paired s /\
  (length (_notifications s) <= N)%nat /\
  maxToasts (_config s) = Z.of_nat N.
Proof.
  intros HN Hr. induction Hr as
    [ | s c Hr (Hc & Hp & Hlen & Hmax) Hfresh
      | s i Hr (Hc & Hp & Hlen & Hmax)
      | s i Hr (Hc & Hp & Hlen & Hmax)
      | s i Hr (Hc & Hp & Hlen & Hmax) Hpaused
      | s h Hr (Hc & Hp & Hlen & Hmax) ].
  - split; [apply consistent_initial|]. split; [|split; [simpl; lia|reflexivity]].
    intros i h H. simpl in H. by rewrite lookup_empty in H.
  - destruct (show_step s c Hc Hfresh) as (Hc' & Hcfg' & Hl'); [lia|lia|].
    split; [exact Hc'|]. split; [by apply paired_show|]. split.
    + rewrite Hl', Hmax, Nat2Z.id, length_take. lia.
    + congruence.
  - split; [by apply consistent_dismiss|]. split.
    + unfold dismiss. intros j h. simpl. apply (paired_clearTimeout i s Hp).
    + unfold dismiss. simpl. rewrite clearTimeout_notifications, clearTimeout_config.
      split; [|exact Hmax]. pose proof (length_filter_le
        (fun n => negb (String.eqb (id n) i)) (_notifications s)). lia.
  - unfold pause. split; [by apply consistent_clearTimeout|].
    split; [by apply paired_clearTimeout|].
    rewrite clearTimeout_notifications, clearTimeout_config.
    exact (conj Hlen Hmax).
  - unfold resume.
    destruct (List.find _ (_notifications s)) as [n|] eqn:Hfind;
      [|exact (conj Hc (conj Hp (conj Hlen Hmax)))].
    destruct (positive_duration (duration n));
      [|exact (conj Hc (conj Hp (conj Hlen Hmax)))].
    split; [|split; [|exact (conj Hlen Hmax)]].
    + apply consistent_scheduleRemoval; [exact Hc| |exact Hpaused].
      exact (find_id_elem i _ n Hfind).
    + apply paired_scheduleRemoval; [exact Hp|exact (pending_older s Hc)].
  - split; [by apply consistent_fire|]. split; [by apply paired_fire|].
    destruct (pendingTimers s !! h) as [t|] eqn:Ht.
    + destruct (fire_fields s h t Hc Ht) as (_ & _ & Hl & _ & Hcfg).
      rewrite Hl, Hcfg. split; [|exact Hmax].
      pose proof (length_filter_le
        (fun n => negb (String.eqb (id n) (timer_id t))) (_notifications s)). lia.
    + unfold fire. rewrite Ht. exact (conj Hlen Hmax).
Qed.

End ToastInvariant.

Section ToastInvariantInstances.
Import Toast ToastSamples.

Lemma reachable_invariant_witness :
  consistent oneToast /\ paired oneToast /\
  (length (_notifications oneToast) <= 5)%nat.
Proof.
  assert (reachable 5 oneToast) as Hr.
  { apply (reach_show 5 _ (mkShowCall "toast_1" 0 TInfo "Saved" None)).
    - apply reach_new.
    - apply not_elem_of_nil. }
  destruct (reachable_invariant 5 oneToast ltac:(lia) Hr) as (Hc & Hp & Hl & _).
  exact (conj Hc (conj Hp Hl)).
Defined.

End ToastInvariantInstances.

(** ** The toast service: single operations *)

Section ToastOperations.
Import Toast.

Lemma find_filter_toast (i j : string) (l : list Notification) :
  j <> i ->
  List.find (fun n => String.eqb (id n) j)
    (List.filter (fun n => negb (String.eqb (id n) i)) l) =
  List.find (fun n => String.eqb (id n) j) l.
Proof.
  intros Hne. induction l as [|n l IH]; simpl; [reflexivity|].
  destruct (String.eqb (id n) i) eqn:E; simpl.
  - apply String.eqb_eq in E.
    destruct (String.eqb (id n) j) eqn:E'; [|exact IH].
    apply String.eqb_eq in E'. congruence.
  - destruct (String.eqb (id n) j); [reflexivity|exact IH].
Qed.

Lemma not_in_ids_dismiss (i : string) (s : State) : i ∉ ids (dismiss i s).
Proof. rewrite ids_dismiss, elem_of_filter_ne. tauto. Qed.

(** X14: when its removal timer expires, a toast leaves the list and
    nothing is left of its timer (no map entry, no pending timer); the
    other toasts are found as before. *)
Theorem fire_removes_toast (s : State) (h : positive) (t : Timer) :
  consistent s ->
  pendingTimers s !! h = Some t ->
  (timer_id t ∉ ids (fire h s)) /\
  no_timer_for (timer_id t) (fire h s) /\
  pendingTimers (fire h s) !! h = None /\
  forall j, j <> timer_id t ->
    List.find (fun n => String.eqb (id n) j) (_notifications (fire h s)) =
    List.find (fun n => String.eqb (id n) j) (_notifications s).
Proof.
  intros Hc Ht.
  destruct (fire_fields s h t Hc Ht) as (Hm & Hpe & Hl & _ & _).
  assert (timer_id t ∉ ids (fire h s)) as Hgone.
  { unfold ids. rewrite Hl, ids_filter, elem_of_filter_ne. tauto. }
  split; [exact Hgone|]. split; [|split].
  - apply consistent_no_timer; [by apply consistent_fire|exact Hgone].
  - rewrite Hpe. apply lookup_delete_eq.
  - intros j Hne. rewrite Hl. by apply find_filter_toast.
Qed.

(** X15: [dismiss(id)] removes the toast and whatever timer it had, and
    touches nothing else: every other id is found as before, keeps its
    entry in the timeout map, and keeps its pending timer. *)
Theorem dismiss_only_its_id (s : State) (i : string) :
  consistent s -> paired s ->
  (i ∉ ids (dismiss i s)) /\
  no_timer_for i (dismiss i s) /\
  forall j, j <> i ->
    List.find (fun n => String.eqb (id n) j) (_notifications (dismiss i s)) =
      List.find (fun n => String.eqb (id n) j) (_notifications s) /\
    timeoutMap (dismiss i s) !! j = timeoutMap s !! j /\
    forall h t, pendingTimers s !! h = Some t -> timer_id t = j ->
      pendingTimers (dismiss i s) !! h = Some t.
Proof.
  intros Hc Hp. split; [apply not_in_ids_dismiss|]. split.
  - apply consistent_no_timer; [by apply consistent_dismiss|apply not_in_ids_dismiss].
  - intros j Hne. unfold dismiss. simpl.
    rewrite clearTimeout_notifications, clearTimeout_timeoutMap.
    split; [by apply find_filter_toast|]. split; [by apply lookup_delete_ne|].
    intros h t Ht Hid. apply clearTimeout_pending_kept; [exact Ht|].
    intros Hi. destruct (Hp i h Hi) as (t' & Ht' & Hid'). congruence.
Qed.

(** X16: [resume] on a toast whose timer was not paused sets a second
    timer, whose delay is the duration divided by [2] as the host divides
    doubles, and lets the timeout map forget the first: both stay pending,
    and a later [pause] cancels only the new one. *)
Theorem resume_without_pause
    (s : State) (i : string) (n : Notification) (h : positive) (t : Timer) :
  consistent s ->
  List.find (fun n => String.eqb (id n) i) (_notifications s) = Some n ->
  (0 <? duration n)%float = true ->
  timeoutMap s !! i = Some h ->
  pendingTimers s !! h = Some t ->
  let s' := resume i s in
  let h' := nextHandle s in
  h <> h' /\
  pendingTimers s' !! h = Some t /\
  pendingTimers s' !! h' =
    Some {| timer_id := i; delay := (duration n / 2)%float |} /\
  timeoutMap s' !! i = Some h' /\
  pendingTimers (pause i s') !! h = Some t /\
  pendingTimers (pause i s') !! h' = None.
Proof.
  intros Hc Hfind Hpos Hmap Ht. simpl.
  assert (h <> nextHandle s) as Hne.
  { pose proof (pending_older s Hc h t Ht). lia. }
  unfold resume. rewrite Hfind. unfold positive_duration.
  rewrite Hpos.
  unfold pause, clearTimeout, scheduleRemoval. simpl.
  rewrite !lookup_insert_eq. simpl.
  split; [exact Hne|]. split; [by rewrite lookup_insert_ne|].
  split; [reflexivity|]. split; [reflexivity|]. split.
  - rewrite lookup_delete_ne by congruence. by rewrite lookup_insert_ne.
  - apply lookup_delete_eq.
Qed.

(** X17: a toast whose duration is not greater than zero (zero, negative,
    or not a number) is shown without a timer: after the call there is no
    map entry and no pending timer for its id, and [show] has added no
    pending timer at all. *)
Theorem show_persistent_no_timer (s : State) (c : ShowCall) :
  consistent s ->
  call_id c ∉ ids s ->
  (0 <? duration (notification_of (_config s) c))%float = false ->
  no_timer_for (call_id c) (show_call c s) /\
  forall h t, pendingTimers (show_call c s) !! h = Some t ->
              pendingTimers s !! h = Some t.
Proof.
  intros Hc Hfresh Hnp.
  destruct (consistent_no_timer s (call_id c) Hc Hfresh) as [Hmap Hpend].
  unfold show_call, show.
  change (mkNotification (call_id c) _ _ _ _ _ _ _) with (notification_of (_config s) c).
  set (n := notification_of (_config s) c) in *.
  unfold positive_duration. rewrite Hnp.
  assert (forall x, no_timer_for (call_id c) (clearTimeout x s) /\
                    forall h t, pendingTimers (clearTimeout x s) !! h = Some t ->
                                pendingTimers s !! h = Some t) as Hclear.
  { intros x. split; [split|].
    - rewrite clearTimeout_timeoutMap. apply lookup_delete_None. by right.
    - intros h t H. apply clearTimeout_pending in H as [H _]. exact (Hpend h t H).
    - intros h t H. by apply clearTimeout_pending in H as [H _]. }
  destruct (maxToasts (_config s) <? _)%Z.
  - unfold pop. destruct (last (n :: _notifications s)) as [removed|].
    + exact (Hclear (id removed)).
    + split; [split; [exact Hmap|exact Hpend]|auto].
  - split; [split; [exact Hmap|exact Hpend]|auto].
Qed.

Lemma clearTimeout_all_map (order : list string) (s : State) (j : string) :
  timeoutMap (fold_left (fun acc i => clearTimeout i acc) order s) !! j =
  if bool_decide (j ∈ order) then None else timeoutMap s !! j.
Proof.
  revert s. induction order as [|i order IH]; intros s; simpl; [reflexivity|].
  rewrite IH, clearTimeout_timeoutMap.
  destruct (decide (j = i)) as [->|Hne].
  - rewrite lookup_delete_eq.
    rewrite (bool_decide_eq_true_2 (i ∈ i :: order)) by left.
    by destruct (bool_decide (i ∈ order)).
  - rewrite lookup_delete_ne by congruence.
    destruct (decide (j ∈ order)) as [Hin|Hnin].
    + rewrite (bool_decide_eq_true_2 _ Hin).
      by rewrite (bool_decide_eq_true_2 (j ∈ i :: order)) by (by right).
    + rewrite (bool_decide_eq_false_2 _ Hnin).
      rewrite (bool_decide_eq_false_2 (j ∈ i :: order)); [reflexivity|].
      intros Hin. apply elem_of_cons in Hin as [?|?]; congruence.
Qed.

Lemma clearTimeout_all_pending (order : list string) (s : State)
    (h : positive) (t : Timer) :
  pendingTimers (fold_left (fun acc i => clearTimeout i acc) order s) !! h = Some t ->
  pendingTimers s !! h = Some t /\
  forall i, i ∈ order -> timeoutMap s !! i <> Some h.
Proof.
  revert s. induction order as [|i order IH]; intros s; simpl.
  - intros H. split; [exact H|]. intros i Hi. by apply elem_of_nil in Hi.
  - intros H. apply IH in H as [H Hrest].
    apply clearTimeout_pending in H as [H Hi]. split; [exact H|].
    intros j Hj. apply elem_of_cons in Hj as [->|Hj]; [exact Hi|].
    destruct (decide (j = i)) as [->|Hne]; [exact Hi|].
    specialize (Hrest j Hj). rewrite clearTimeout_timeoutMap in Hrest.
    by rewrite lookup_delete_ne in Hrest by congruence.
Qed.

(** X18: in a consistent state, [dismissAll] (visiting the ids of the
    timeout map) leaves no toast, an empty timeout map and no pending
    timer. *)
Theorem dismissAll_clears (order : list string) (s : State) :
  consistent s ->
  (forall i, i ∈ order <-> is_Some (timeoutMap s !! i)) ->
  _notifications (dismissAll order s) = [] /\
  timeoutMap (dismissAll order s) = ∅ /\
  pendingTimers (dismissAll order s) = ∅.
Proof.
  intros Hc Horder. unfold dismissAll. simpl. split; [reflexivity|]. split.
  - apply map_empty. intros j. rewrite clearTimeout_all_map.
    destruct (decide (j ∈ order)) as [Hin|Hnin].
    + by rewrite (bool_decide_eq_true_2 _ Hin).
    + rewrite (bool_decide_eq_false_2 _ Hnin).
      destruct (timeoutMap s !! j) eqn:E; [|reflexivity].
      exfalso. apply Hnin, Horder. by rewrite E.
  - apply map_empty. intros h.
    destruct (pendingTimers _ !! h) as [t|] eqn:E; [|reflexivity].
    apply clearTimeout_all_pending in E as [Ht Hno].
    pose proof (pending_mapped s Hc h t Ht) as Hm.
    exfalso. apply (Hno (timer_id t)); [|exact Hm].
    apply Horder. by rewrite Hm.
Qed.

(** X19: on a service with room for at least one toast, the toast made by
    [error] is first in the list and its id is returned.  It stays for the
    duration given in the options; for 8000 ms, whatever default duration
    is configured, when no options are passed or they have no [duration]
    key; and for the configured default duration when the options carry a
    [duration] key holding [undefined]. *)
Theorem error_toast_first (newId : string) (now : Z) (msg : string)
    (options : option NotificationOptions) (s : State) :
  (1 <= maxToasts (_config s))%Z ->
  let r := error newId now msg options s in
  snd r = newId /\
  exists n, head (_notifications (fst r)) = Some n /\
            id n = newId /\ type n = TError /\ message n = msg /\
            duration n =
              match options with
              | None => 8000%float
              | Some o =>
                  match opt_duration o with
                  | Missing => 8000%float
                  | Undefined => defaultDuration (_config s)
                  | Given d => d
                  end
              end.
Proof.
  intros Hcap. unfold error, show. cbn [fst snd]. split; [reflexivity|].
  set (n := mkNotification _ _ _ _ _ _ _ _).
  assert (duration n =
          match options with
          | None => 8000%float
          | Some o =>
              match opt_duration o with
              | Missing => 8000%float
              | Undefined => defaultDuration (_config s)
              | Given d => d
              end
          end) as Hd.
  { subst n. simpl. destruct options as [o|]; [|reflexivity]. simpl.
    by destruct (opt_duration o). }
  assert (forall s1, head (_notifications s1) = Some n ->
            head (_notifications
                    (if positive_duration (duration n)
                     then scheduleRemoval newId (duration n) s1 else s1)) = Some n)
    as Hsched.
  { intros s1 H. by destruct (positive_duration (duration n)). }
  exists n. split; [|by repeat split].
  apply Hsched.
  destruct (maxToasts (_config s) <? Z.of_nat (length (n :: _notifications s)))%Z
    eqn:Hover; [|reflexivity].
  apply Z.ltb_lt in Hover. simpl length in Hover.
  destruct (_notifications s) as [|m l] eqn:El; [simpl in Hover; lia|].
  unfold pop.
  destruct (exists_last (l := m :: l) ltac:(discriminate)) as (rest & removed & Heq).
  rewrite Heq.
  change (n :: rest ++ [removed]) with ((n :: rest) ++ [removed]).
  rewrite last_snoc, removelast_last. reflexivity.
Qed.

End ToastOperations.

Section ToastOperationsInstances.
Import Toast ToastSamples.

Lemma oneToast_tight : consistent oneToast /\ paired oneToast.
Proof.
  pose proof (consistent_initial DEFAULT_TOAST_CONFIG) as Hc0.
  assert (paired (set_config DEFAULT_TOAST_CONFIG initialState)) as Hp0.
  { intros i h H. simpl in H. by rewrite lookup_empty in H. }
  split.
  - apply (show_step _ (mkShowCall "toast_1" 0 TInfo "Saved" None) Hc0);
      [apply not_elem_of_nil | simpl; lia | simpl; lia].
  - exact (paired_show _ (mkShowCall "toast_1" 0 TInfo "Saved" None) Hc0 Hp0).
Qed.

Lemma fire_removes_toast_witness :
  pendingTimers oneToast !! 1%positive =
    Some {| timer_id := "toast_1"; delay := 5000%float |} /\
  _notifications (fire 1 oneToast) = [] /\
  no_timer_for "toast_1" (fire 1 oneToast).
Proof.
  assert (pendingTimers oneToast !! 1%positive =
          Some {| timer_id := "toast_1"; delay := 5000%float |}) as Ht
    by reflexivity.
  destruct oneToast_tight as (Hc & _).
  destruct (fire_removes_toast oneToast 1 _ Hc Ht) as (_ & Hno & _).
  split; [exact Ht|]. split; [reflexivity|exact Hno].
Defined.

Lemma dismiss_only_its_id_witness :
  no_timer_for "toast_1" (dismiss "toast_1" oneToast) /\
  timeoutMap (dismiss "toast_2" oneToast) !! "toast_1"%string = Some 1%positive.
Proof.
  destruct oneToast_tight as (Hc & Hp).
  destruct (dismiss_only_its_id oneToast "toast_1" Hc Hp) as (_ & Hno & _).
  destruct (dismiss_only_its_id oneToast "toast_2" Hc Hp) as (_ & _ & Hother).
  destruct (Hother "toast_1"%string ltac:(discriminate)) as (_ & Hmap & _).
  split; [exact Hno|]. rewrite Hmap. reflexivity.
Defined.

Lemma resume_without_pause_witness :
  pendingTimers (resume "toast_1" oneToast) !! 1%positive =
    Some {| timer_id := "toast_1"; delay := 5000%float |} /\
  pendingTimers (resume "toast_1" oneToast) !! 2%positive =
    Some {| timer_id := "toast_1"; delay := 2500%float |} /\
  pendingTimers (pause "toast_1" (resume "toast_1" oneToast)) !! 1%positive =
    Some {| timer_id := "toast_1"; delay := 5000%float |}.
Proof.
  destruct oneToast_tight as (Hc & _).
  destruct (resume_without_pause oneToast "toast_1" savedToast 1
              {| timer_id := "toast_1"; delay := 5000%float |}
              Hc eq_refl eq_refl eq_refl eq_refl)
    as (_ & H1 & H2 & _ & H3 & _).
  exact (conj H1 (conj H2 H3)).
Defined.

Lemma show_persistent_no_timer_witness :
  no_timer_for "toast_2"
    (show_call (mkShowCall "toast_2" 1 TInfo "Pinned"
                  (Some (mkOptions None (Given 0%float) None None)))
               oneToast).
Proof.
  destruct oneToast_tight as (Hc & _).
  apply (show_persistent_no_timer oneToast
           (mkShowCall "toast_2" 1 TInfo "Pinned"
              (Some (mkOptions None (Given 0%float) None None))) Hc).
  - simpl. intros H. apply list_elem_of_singleton in H. discriminate H.
  - reflexivity.
Defined.

Lemma dismissAll_clears_witness :
  _notifications (dismissAll ["toast_1"%string] oneToast) = [] /\
  timeoutMap (dismissAll ["toast_1"%string] oneToast) = ∅ /\
  pendingTimers (dismissAll ["toast_1"%string] oneToast) = ∅.
Proof.
  destruct oneToast_tight as (Hc & _).
  apply (dismissAll_clears ["toast_1"%string] oneToast Hc).
  intros i. split.
  - intros H. apply list_elem_of_singleton in H. subst i. by eexists.
  - intros [h H]. apply list_elem_of_singleton.
    destruct (decide (i = "toast_1"%string)) as [->|Hne]; [reflexivity|].
    exfalso. change (timeoutMap oneToast) with
      (<["toast_1"%string := 1%positive]> (∅ : gmap string positive)) in H.
    rewrite lookup_insert_ne in H by congruence. by rewrite lookup_empty in H.
Defined.

Lemma error_toast_first_witness :
  (exists n,
    head (_notifications (fst (error "toast_2" 1 "Failed" None oneToast))) = Some n /\
    duration n = 8000%float) /\
  (exists n,
    head (_notifications
            (fst (error "toast_2" 1 "Failed"
                    (Some (mkOptions None Undefined None None)) oneToast))) = Some n /\
    duration n = 5000%float).
Proof.
  split.
  - destruct (error_toast_first "toast_2" 1 "Failed" None oneToast ltac:(simpl; lia))
      as (_ & n & Hh & _ & _ & _ & Hd).
    exists n. split; [exact Hh|exact Hd].
  - destruct (error_toast_first "toast_2" 1 "Failed"
                (Some (mkOptions None Undefined None None)) oneToast
                ltac:(simpl; lia))
      as (_ & n & Hh & _ & _ & _ & Hd).
    exists n. split; [exact Hh|exact Hd].
Defined.

End ToastOperationsInstances.

(** ** The error log: hooks, recent errors, statistics *)

Section ErrorLogMore.
Import ErrorLog.

Variable navigator : option string.

Lemma run_hooks_isolated (hs : list ErrorLoggingHook) (e : AppError)
    (entry : ErrorLogEntry) (ws : list ConsoleWarning) :
  (forall hook f, hook ∈ hs -> shouldLog hook = Some f -> exists b, f e = Normal b) ->
  run_hooks hs e entry ws = (ws ++ omap (hook_report e entry) hs, Normal tt).
Proof.
  revert ws. induction hs as [|hook hs IH]; intros ws Hok; simpl.
  - by rewrite app_nil_r.
  - assert (forall hook' f, hook' ∈ hs -> shouldLog hook' = Some f ->
                            exists b, f e = Normal b) as Hok'.
    { intros hook' f Hin. apply Hok. by right. }
    unfold shouldLogToHook, hook_report at 1, hook_wants.
    destruct (shouldLog hook) as [f|] eqn:Hs.
    + destruct (Hok hook f ltac:(left) Hs) as [b Hb]. rewrite Hb.
      destruct b; simpl; [|by apply IH].
      destruct (log_hook hook entry); simpl; [by apply IH|].
      rewrite IH by exact Hok'. by rewrite <- app_assoc.
    + destruct (log_hook hook entry); simpl; [by apply IH|].
      rewrite IH by exact Hok'. by rewrite <- app_assoc.
Qed.

(** X20: as long as no hook's [shouldLog] throws, [log] returns normally
    whatever the hooks' [log] functions do: every hook that wants the
    error and throws on it is reported once on the console, by a warning
    that reads [Error logging hook], the hook's name between double
    quotes, [failed:], and is followed by what the hook threw; the
    warnings come in the order of the hooks, and a failing hook stops
    none of the later ones. *)
Theorem log_isolates_failing_hooks (e : AppError)
    (md : option (list (string * string))) (s : State) :
  (forall hook f, hook ∈ hooks s -> shouldLog hook = Some f ->
                  exists b, f e = Normal b) ->
  snd (log navigator e md s) = Normal tt /\
  warnings (fst (log navigator e md s)) =
    warnings s ++
    omap (hook_report e (createLogEntry navigator e md)) (hooks s) /\
  hooks (fst (log navigator e md s)) = hooks s.
Proof.
  intros Hok. unfold log. rewrite (run_hooks_isolated _ _ _ _ Hok). by repeat split.
Qed.

Lemma run_hooks_throwing (good rest : list ErrorLoggingHook)
    (hook : ErrorLoggingHook) (f : AppError -> Completion bool) (x : string)
    (e : AppError) (entry : ErrorLogEntry) (ws : list ConsoleWarning) :
  (forall g f', g ∈ good -> shouldLog g = Some f' -> exists b, f' e = Normal b) ->
  shouldLog hook = Some f -> f e = Throw x ->
  run_hooks (good ++ hook :: rest) e entry ws =
    (ws ++ omap (hook_report e entry) good, Throw x).
Proof.
  revert ws. induction good as [|g good IH]; intros ws Hok Hs Hx; simpl.
  - unfold shouldLogToHook. by rewrite Hs, Hx, app_nil_r.
  - assert (forall g' f', g' ∈ good -> shouldLog g' = Some f' ->
                          exists b, f' e = Normal b) as Hok'.
    { intros g' f' Hin. apply Hok. by right. }
    unfold shouldLogToHook, hook_report at 1, hook_wants.
    destruct (shouldLog g) as [fg|] eqn:Hg.
    + destruct (Hok g fg ltac:(left) Hg) as [b Hb]. rewrite Hb.
      destruct b; simpl; [|by apply IH].
      destruct (log_hook g entry); simpl; [by apply IH|].
      rewrite IH by assumption. by rewrite <- app_assoc.
    + destruct (log_hook g entry); simpl; [by apply IH|].
      rewrite IH by assumption. by rewrite <- app_assoc.
Qed.

(** X21: a hook whose [shouldLog] throws is not shielded: [log] throws
    that error to its caller, after the earlier hooks ran and before any
    later one does: the console holds the warnings of the failing hooks
    among the earlier ones and nothing from the throwing hook or the
    hooks after it.  The entry is in the buffer all the same, as the last
    one. *)
Theorem log_shouldLog_throws (good rest : list ErrorLoggingHook)
    (hook : ErrorLoggingHook) (f : AppError -> Completion bool) (x : string)
    (e : AppError) (md : option (list (string * string))) (s : State) :
  hooks s = good ++ hook :: rest ->
  (forall g f', g ∈ good -> shouldLog g = Some f' -> exists b, f' e = Normal b) ->
  shouldLog hook = Some f -> f e = Throw x ->
  snd (log navigator e md s) = Throw x /\
  warnings (fst (log navigator e md s)) =
    warnings s ++ omap (hook_report e (createLogEntry navigator e md)) good /\
  last (errorBuffer (fst (log navigator e md s))) = Some (createLogEntry navigator e md).
Proof.
  intros Hhooks Hok Hs Hx.
  pose proof (run_hooks_throwing good rest hook f x e
                (createLogEntry navigator e md) (warnings s) Hok Hs Hx) as Hr.
  unfold log. rewrite Hhooks, Hr.
  simpl. split; [reflexivity|]. split; [reflexivity|].
  unfold addToBuffer, shift. simpl.
  destruct (maxBufferSize <? _)%nat eqn:Hfull; [|apply last_snoc].
  apply Nat.ltb_lt in Hfull. rewrite length_app in Hfull. simpl in Hfull.
  destruct (errorBuffer s) as [|b buf]; [unfold maxBufferSize in Hfull; simpl in Hfull; lia|].
  simpl. apply last_snoc.
Qed.


Lemma stats_fold (buf : list ErrorLogEntry) (acc : gmap string nat) (c : string) :
  let stats :=
    fold_left
      (fun stats entry =>
         let k := category_name (category (entry_error entry)) in
         <[k := (default 0 (stats !! k) + 1)%nat]> stats) buf acc in
  default 0%nat (stats !! c) = (default 0%nat (acc !! c) + count_category c buf)%nat /\
  (stats !! c = None <-> acc !! c = None /\ count_category c buf = 0%nat).
Proof.
  revert acc. induction buf as [|entry buf IH]; intros acc; simpl.
  - unfold count_category. simpl. split; [lia|tauto].
  - specialize (IH (<[category_name (category (entry_error entry)) :=
                        (default 0 (acc !! category_name (category (entry_error entry))) + 1)%nat]>
                      acc)).
    simpl in IH. destruct IH as [IHv IHn]. unfold count_category in *. simpl.
    destruct (String.eqb (category_name (category (entry_error entry))) c) eqn:E.
    + apply String.eqb_eq in E. rewrite E in *.
      rewrite lookup_insert_eq in IHv, IHn. simpl in *. split; [lia|].
      rewrite IHn. split; [intros [H _]; discriminate H | intros [_ H]; discriminate H].
    + apply String.eqb_neq in E.
      rewrite lookup_insert_ne in IHv, IHn by exact E. split; [exact IHv|exact IHn].
Qed.

Lemma category_name_inj (c1 c2 : ErrorCategory) :
  category_name c1 = category_name c2 -> c1 = c2.
Proof. destruct c1, c2; simpl; intros H; first [reflexivity | discriminate H]. Qed.

(** X23: [getErrorStats] counts the buffer by category: the number
    stored under a category's name is the number of buffered entries of
    that category, a category without entries has no key at all, and no
    key other than a category name appears. *)
Theorem getErrorStats_counts (s : State) :
  (forall c,
     default 0%nat (getErrorStats s !! category_name c) =
       length (List.filter
                 (fun entry => bool_decide (category (entry_error entry) = c))
                 (errorBuffer s)) /\
     (getErrorStats s !! category_name c = None <->
      forall entry, entry ∈ errorBuffer s -> category (entry_error entry) <> c)) /\
  (forall key, (forall c, key <> category_name c) -> getErrorStats s !! key = None).
Proof.
  assert (forall c buf,
            count_category (category_name c) buf =
            length (List.filter
                      (fun entry => bool_decide (category (entry_error entry) = c))
                      buf)) as Hcount.
  { intros c buf. unfold count_category. f_equal.
    apply filter_ext. intros entry.
    destruct (decide (category (entry_error entry) = c)) as [->|Hne].
    - rewrite String.eqb_refl. symmetry. by apply bool_decide_eq_true_2.
    - rewrite (bool_decide_eq_false_2 _ Hne). apply String.eqb_neq.
      intros H. by apply Hne, category_name_inj. }
  split.
  - intros c.
    destruct (stats_fold (errorBuffer s) ∅ (category_name c)) as [Hv Hn].
    rewrite lookup_empty in Hv, Hn. simpl in Hv.
    unfold getErrorStats. split; [by rewrite Hv, Hcount|].
    rewrite Hn, Hcount. split.
    + intros [_ H] entry Hin Hc.
      apply list_elem_of_In in Hin.
      assert (In entry (List.filter
                (fun entry => bool_decide (category (entry_error entry) = c))
                (errorBuffer s))) as Hf.
      { apply filter_In. split; [exact Hin|by apply bool_decide_eq_true_2]. }
      destruct (List.filter _ (errorBuffer s)); [exact Hf|discriminate H].
    + intros H. split; [reflexivity|].
      destruct (List.filter _ (errorBuffer s)) as [|entry l] eqn:E; [reflexivity|].
      exfalso. assert (In entry (entry :: l)) as Hin by (simpl; auto).
      rewrite <- E in Hin. apply filter_In in Hin as [Hin Hc].
      apply bool_decide_eq_true in Hc. apply (H entry); [|exact Hc].
      by apply list_elem_of_In.
  - intros key Hkey.
    assert (count_category key (errorBuffer s) = 0%nat) as Hz.
    { unfold count_category.
      induction (errorBuffer s) as [|entry buf IH]; simpl; [reflexivity|].
      destruct (String.eqb _ key) eqn:E; [|exact IH].
      apply String.eqb_eq in E. exfalso.
      by apply (Hkey (category (entry_error entry))). }
    destruct (stats_fold (errorBuffer s) ∅ key) as [_ Hn].
    unfold getErrorStats. apply Hn. split; [apply lookup_empty|exact Hz].
Qed.

End ErrorLogMore.

Section ErrorLogMoreInstances.
Import ErrorLog ErrorSamples.

Lemma log_isolates_failing_hooks_witness :
  let s := newService [brokenHook; RemoteLoggingHook "remote"; brokenHook] in
  snd (log None sampleError None s) = Normal tt /\
  warnings (fst (log None sampleError None s)) =
    [{| warn_text :=
          ("Error logging hook " ++ String "034" ("broken" ++ String "034" " failed:"))%string;
        warn_error := "down" |};
     {| warn_text :=
          ("Error logging hook " ++ String "034" ("broken" ++ String "034" " failed:"))%string;
        warn_error := "down" |}].
Proof.
  intros s.
  assert (forall hook f, hook ∈ hooks s -> shouldLog hook = Some f ->
                         exists b, f sampleError = Normal b) as Hok.
  { intros hook f Hin Hs. subst s. simpl in Hin.
    repeat (apply elem_of_cons in Hin as [->|Hin]);
      [discriminate Hs | injection Hs as <-; eauto | discriminate Hs
      | by apply elem_of_nil in Hin]. }
  destruct (log_isolates_failing_hooks None sampleError None s Hok) as (Hr & Hw & _).
  split; [exact Hr|]. rewrite Hw. reflexivity.
Defined.

Lemma log_shouldLog_throws_witness :
  let s := newService [brokenHook; brokenFilter; brokenHook] in
  snd (log None sampleError None s) = Throw "no filter" /\
  warnings (fst (log None sampleError None s)) =
    [{| warn_text :=
          ("Error logging hook " ++ String "034" ("broken" ++ String "034" " failed:"))%string;
        warn_error := "down" |}] /\
  errorBuffer (fst (log None sampleError None s)) =
    [createLogEntry None sampleError None].
Proof.
  intros s.
  destruct (log_shouldLog_throws None [brokenHook] [brokenHook]
              brokenFilter (fun _ => Throw "no filter") "no filter"
              sampleError None s eq_refl) as (Hr & Hw & _).
  - intros g f' Hin Hs. apply list_elem_of_singleton in Hin. subst g. discriminate Hs.
  - reflexivity.
  - reflexivity.
  - split; [exact Hr|]. split; [rewrite Hw; reflexivity|reflexivity].
Defined.

End ErrorLogMoreInstances.

(** ** ErrorService *)

Section ErrorServiceProperties.
Import ErrorLog ErrorService.

(** X24: category and severity agree on every status code: 5xx and above
    is [server] and [critical] and nothing else is; status 0 alone is
    [network]; the warnings are exactly 401 and 403, the authentication
    and authorization errors; [info] goes with [unknown] (a status below
    400 other than 0); validation and client errors have severity
    [error]. *)
Theorem category_severity_agree (status : Z) :
  (getCategoryFromStatus status = server <-> (500 <= status)%Z) /\
  (getSeverityFromStatus status = sev_critical <-> (500 <= status)%Z) /\
  (getCategoryFromStatus status = network <-> status = 0%Z) /\
  (getSeverityFromStatus status = sev_warning <->
   getCategoryFromStatus status = authentication \/
   getCategoryFromStatus status = authorization) /\
  (getSeverityFromStatus status = sev_warning <-> status = 401%Z \/ status = 403%Z) /\
  (getSeverityFromStatus status = sev_info <-> getCategoryFromStatus status = unknown) /\
  (getSeverityFromStatus status = sev_info <-> (status < 400)%Z /\ status <> 0%Z) /\
  (getCategoryFromStatus status = validation \/ getCategoryFromStatus status = client ->
   getSeverityFromStatus status = sev_error).
Proof.
  unfold getCategoryFromStatus, getSeverityFromStatus,
    Unauthorized, Forbidden, UnprocessableEntity, BadRequest.
  destruct (Z.eqb_spec status 0); [subst; simpl; intuition (try discriminate; lia)|].
  destruct (Z.eqb_spec status 401); [subst; simpl; intuition (try discriminate; lia)|].
  destruct (Z.eqb_spec status 403); [subst; simpl; intuition (try discriminate; lia)|].
  destruct (Z.eqb_spec status 422); [subst; simpl; intuition (try discriminate; lia)|].
  destruct (Z.eqb_spec status 400); [subst; simpl; intuition (try discriminate; lia)|].
  simpl.
  destruct (Z.leb_spec 500 status); [intuition (try discriminate; lia)|].
  destruct (Z.leb_spec 400 status); intuition (try discriminate; lia).
Qed.

(** X25: a retryable status (408, 429, 502, 503, 504) is always a client
    or a server error with severity [error] or [critical]: never a
    network, authentication, authorization or validation error. *)
Theorem retryable_classification (status : Z) :
  isRetryable status = true ->
  (getCategoryFromStatus status = client /\ getSeverityFromStatus status = sev_error) \/
  (getCategoryFromStatus status = server /\ getSeverityFromStatus status = sev_critical).
Proof.
  unfold isRetryable, retryableCodes. simpl. intros H.
  repeat (apply orb_true_iff in H as [H|H]);
    try (apply Z.eqb_eq in H; subst; simpl; auto); discriminate H.
Qed.

Lemma keys_aligned (status : Z) :
  lookupStatus keyMap status = None <-> lookupStatus messageMap status = None.
Proof.
  unfold keyMap, messageMap. cbn [lookupStatus].
  repeat match goal with
         | |- context [(status =? ?k)%Z] =>
             destruct (Z.eqb_spec status k); [split; discriminate|]
         end.
  tauto.
Qed.

(** X26: the two message tables cover the same status codes, the text
    shown to the user is never a translation key: without a translation
    [getUserMessage] falls back to the built-in English text, and it is
    the generic text exactly for the status codes that have the generic
    key. *)
Theorem getUserMessage_never_a_key (instant : string -> string) (status : Z) :
  getUserMessage instant status <> getMessageKey status /\
  (instant (getMessageKey status) = getMessageKey status ->
   getUserMessage instant status = getDefaultMessage status) /\
  (getMessageKey status = "errors.unexpected"%string <->
   getDefaultMessage status =
     "An unexpected error occurred. Please try again."%string) /\
  (lookupStatus keyMap status = None <-> lookupStatus messageMap status = None).
Proof.
  assert (getDefaultMessage status <> getMessageKey status) as Hdiff.
  { unfold getDefaultMessage, getMessageKey, keyMap, messageMap. cbn [lookupStatus].
    repeat match goal with
           | |- context [(status =? ?k)%Z] =>
               destruct (Z.eqb_spec status k); [discriminate|]
           end.
    discriminate. }
  split; [|split; [|split; [|apply keys_aligned]]].
  - unfold getUserMessage.
    destruct (String.eqb (instant (getMessageKey status)) (getMessageKey status)) eqn:E;
      simpl; [exact Hdiff|]. by apply String.eqb_neq.
  - intros Hsame. unfold getUserMessage. rewrite Hsame, String.eqb_refl. reflexivity.
  - unfold getDefaultMessage, getMessageKey, keyMap, messageMap. cbn [lookupStatus].
    repeat match goal with
           | |- context [(status =? ?k)%Z] =>
               destruct (Z.eqb_spec status k); [split; discriminate|]
           end.
    by split.
Qed.

(** X27: a remote logging hook wants an error built from a status code
    exactly when the status is 0, or 400 and above but neither 401 nor
    403: expired sessions, refused permissions and statuses below 400 are
    never sent to it. *)
Theorem remote_hook_statuses (e : AppError) (status : Z) :
  severity e = getSeverityFromStatus status ->
  (shouldLogToHook (RemoteLoggingHook "remote") e = Normal true <->
   status = 0%Z \/ ((400 <= status)%Z /\ status <> 401%Z /\ status <> 403%Z)) /\
  (exists b, shouldLogToHook (RemoteLoggingHook "remote") e = Normal b).
Proof.
  intros Hsev. unfold shouldLogToHook, RemoteLoggingHook, remote_shouldLog. simpl.
  rewrite Hsev. split; [|eauto].
  unfold getSeverityFromStatus, Unauthorized, Forbidden.
  destruct (Z.eqb_spec status 0); [subst; simpl; intuition|].
  destruct (Z.eqb_spec status 401); [subst; simpl; intuition (try discriminate; lia)|].
  destruct (Z.eqb_spec status 403); [subst; simpl; intuition (try discriminate; lia)|].
  destruct (Z.leb_spec 500 status); [intuition (try discriminate; lia)|].
  destruct (Z.leb_spec 400 status); intuition (try discriminate; lia).
Qed.

End ErrorServiceProperties.

Section ErrorServiceInstances.
Import ErrorLog ErrorService ErrorSamples.

Lemma retryable_classification_witness :
  getCategoryFromStatus 429 = client /\ getSeverityFromStatus 429 = sev_error.
Proof.
  destruct (retryable_classification 429 eq_refl) as [H|[H _]];
    [exact H | discriminate H].
Defined.

Lemma remote_hook_statuses_witness :
  shouldLogToHook (RemoteLoggingHook "remote") sampleError = Normal true.
Proof.
  destruct (remote_hook_statuses sampleError 500 eq_refl) as [H _].
  apply H. right. lia.
Defined.

End ErrorServiceInstances.

(** ** Hovering over a toast *)

Section ToastHover.
Import Toast ToastContainer.

(** X28: in a consistent state, moving the pointer onto a displayed
    toast with a positive duration and off again leaves it, when
    [pauseOnHover] is set, with exactly one pending timer, whose delay is
    its duration divided by [2] as the host divides doubles, however far
    the earlier timer had run; the state stays consistent.  Without
    [pauseOnHover] nothing happens. *)
Theorem hover_restarts_timer (s : State) (i : string) (n : Notification) :
  consistent s ->
  List.find (fun n => String.eqb (id n) i) (_notifications s) = Some n ->
  (0 <? duration n)%float = true ->
  let s' := onMouseLeave i (onMouseEnter i s) in
  (pauseOnHover (_config s) = false -> s' = s) /\
  (pauseOnHover (_config s) = true ->
   consistent s' /\
   exists h,
     timeoutMap s' !! i = Some h /\
     pendingTimers s' !! h =
       Some {| timer_id := i; delay := (duration n / 2)%float |} /\
     forall h' t, pendingTimers s' !! h' = Some t -> timer_id t = i -> h' = h).
Proof.
  intros Hc Hfind Hpos. simpl. unfold onMouseLeave, onMouseEnter.
  split; intros Hhover; rewrite Hhover.
  - by rewrite Hhover.
  - unfold pause. rewrite clearTimeout_config, Hhover.
    pose proof (consistent_clearTimeout i s Hc) as Hc1.
    pose proof (clearTimeout_lookup i s) as Hnone.
    assert (resume i (clearTimeout i s) =
            scheduleRemoval i (duration n / 2)%float (clearTimeout i s)) as Hres.
    { unfold resume. rewrite clearTimeout_notifications, Hfind.
      unfold positive_duration. by rewrite Hpos. }
    rewrite Hres.
    assert (consistent (scheduleRemoval i (duration n / 2)%float
                          (clearTimeout i s))) as Hc2.
    { apply consistent_scheduleRemoval; [exact Hc1| |exact Hnone].
      unfold ids. rewrite clearTimeout_notifications.
      exact (find_id_elem i _ n Hfind). }
    split; [exact Hc2|].
    exists (nextHandle (clearTimeout i s)).
    assert (timeoutMap (scheduleRemoval i (duration n / 2)%float
                          (clearTimeout i s)) !! i =
            Some (nextHandle (clearTimeout i s))) as Hm
      by (unfold scheduleRemoval; simpl; apply lookup_insert_eq).
    split; [exact Hm|]. split.
    + unfold scheduleRemoval. simpl. apply lookup_insert_eq.
    + intros h' t Ht Hid. pose proof (pending_mapped _ Hc2 h' t Ht) as Hm'.
      rewrite Hid, Hm in Hm'. congruence.
Qed.

End ToastHover.

Section ToastHoverInstances.
Import Toast ToastContainer ToastSamples.

Lemma hover_restarts_timer_witness :
  exists h,
    timeoutMap (onMouseLeave "toast_1" (onMouseEnter "toast_1" oneToast))
      !! "toast_1"%string = Some h /\
    pendingTimers (onMouseLeave "toast_1" (onMouseEnter "toast_1" oneToast)) !! h =
      Some {| timer_id := "toast_1"; delay := 2500%float |}.
Proof.
  destruct oneToast_tight as (Hc & _).
  destruct (hover_restarts_timer oneToast "toast_1" savedToast Hc eq_refl eq_refl)
    as [_ H].
  destruct (H eq_refl) as (_ & h & Hm & Hp & _).
  exists h. split; [exact Hm|exact Hp].
Defined.

End ToastHoverInstances.
